(** * eva.js Game orchestrator: a shallow embedding of [lib/game/Game.ts]

    The development follows the source file top to bottom: the lifecycle
    helpers ([triggerStart], [getAllGameObjects], [gameObjectLoop],
    [gameObjectResume], [gameObjectPause]) and then the methods of the
    [Game] class.

    Modelling choices.
    - JavaScript objects that the code mutates ([obj.started],
      [system.game]) live in a store keyed by object identity, so that an
      object reachable along two paths (a scene loaded both as primary and
      as secondary scene, the snapshot taken by [destroySystems]) is one
      object.
    - A lifecycle hook is modelled by its presence and by the way its call
      completes: it returns or it throws.  What a hook body does to the
      game is outside this model.
    - Every call of a hook or of an external collaborator ([Ticker],
      [Scene], the observer wiring, the console, the event emitter) is
      appended to a log, oldest entry first.
    - A computation is a state transformer that completes normally or
      abruptly; state changes made before a throw persist, as in
      JavaScript. *)

From Stdlib Require Import ZArith.
From stdpp Require Import base decidable option list strings gmap.

Set Default Proof Using "Type".
Set Warnings "-clear-no-such-hyp".

(** ** Values *)

(** A constructor function, with its [extends] chain. *)
Inductive Ctor : Type :=
| ObjectCtor
| Class (cid : nat) (super : Ctor).

(** The two base classes imported by [Game.ts]. *)
Definition System : Ctor := Class 0 ObjectCtor.
Definition Component : Ctor := Class 1 ObjectCtor.

Global Instance Ctor_eq_dec : EqDecision Ctor.
Proof. solve_decision. Defined.

(** What JavaScript can throw here: a [TypeError] raised by the runtime on
    a property access through [null], or a value thrown by a hook. *)
Inductive Exn : Type :=
| TypeError (msg : string)
| Thrown (v : nat).

Global Instance Exn_eq_dec : EqDecision Exn.
Proof. solve_decision. Defined.

(** An optional method of a unit. *)
Inductive Hook : Type :=
| Absent
| Returns
| Throws (e : Exn).

Global Instance Hook_eq_dec : EqDecision Hook.
Proof. solve_decision. Defined.

Inductive HookName : Type :=
| Hinit | Hawake | Hstart | Hupdate | HlateUpdate
| HonPause | HonResume | Hdestroy.

Global Instance HookName_eq_dec : EqDecision HookName.
Proof. solve_decision. Defined.

Definition Params : Type := list (string * string).
Definition FrameEvent : Type := nat.

(** A [System] or a [Component]: the immutable part of the object.
    [systemName] and [componentName] are the static properties read
    through [obj.constructor].  The hooks [start] and [destroy] are
    [start_] and [destroy_] here: the plain names are the methods of
    [Game]. *)
Record Unit : Type := mkUnit {
  oid : nat;
  constructor : Ctor;
  name : string;
  systemName : string;
  componentName : string;
  __systemDefaultParams : option Params;
  init : Hook;
  awake : Hook;
  start_ : Hook;
  update : Hook;
  lateUpdate : Hook;
  onPause : Hook;
  onResume : Hook;
  destroy_ : Hook;
}.

Global Instance Unit_eq_dec : EqDecision Unit.
Proof. solve_decision. Defined.

Record GameObject : Type := mkGameObject {
  go_name : string;
  components : list Unit;
}.

Record Scene : Type := mkScene {
  scene_name : string;
  gameObjects : list GameObject;
}.

Global Instance GameObject_eq_dec : EqDecision GameObject.
Proof. solve_decision. Defined.

Global Instance Scene_eq_dec : EqDecision Scene.
Proof. solve_decision. Defined.

Inductive LOAD_SCENE_MODE : Type := SINGLE | MULTI_CANVAS.

Global Instance LOAD_SCENE_MODE_eq_dec : EqDecision LOAD_SCENE_MODE.
Proof. solve_decision. Defined.

(** The object literal passed to [emit('sceneChanged', ...)]. *)
Record SceneChanged : Type := mkSceneChanged {
  sc_scene : Scene;
  sc_mode : LOAD_SCENE_MODE;
  sc_params : Params;
}.

(** The external [Ticker]: only [add], [start] and [pause] are used. *)
Record Ticker : Type := mkTicker {
  tk_autoStart : bool;
  tk_frameRate : nat;
  tk_running : bool;
  tk_callbacks : nat;
}.

(** ** The log *)

Inductive Event : Type :=
| Call (h : HookName) (u : Unit)
| SetGame (u : Unit)
| SetSystemObserver (u : Unit) (S : Ctor)
| InitObserver (S : Ctor)
| TickerStart
| TickerPause
| SceneDestroy (s : Scene)
| Emit (event : string) (payload : SceneChanged)
| ConsoleWarn (msg : string)
| ConsoleError (msg : string) (e : Exn).

(** ** The state *)

Record World : Type := mkWorld {
  (* fields of the Game instance *)
  _scene : option Scene;
  canvas : option nat;
  playing : bool;
  started : bool;
  multiScenes : option (list Scene);
  ticker : option Ticker;
  systems : list Unit;
  listeners : list string;
  (* mutable fields of the units, by object identity *)
  obj_started : gset nat;
  obj_game : gset nat;
  (* what has happened so far *)
  log : list Event;
}.

Definition set_scene (v : option Scene) (w : World) : World :=
  mkWorld v (canvas w) (playing w) (started w) (multiScenes w) (ticker w)
          (systems w) (listeners w) (obj_started w) (obj_game w) (log w).
Definition set_canvas (v : option nat) (w : World) : World :=
  mkWorld (_scene w) v (playing w) (started w) (multiScenes w) (ticker w)
          (systems w) (listeners w) (obj_started w) (obj_game w) (log w).
Definition set_playing (v : bool) (w : World) : World :=
  mkWorld (_scene w) (canvas w) v (started w) (multiScenes w) (ticker w)
          (systems w) (listeners w) (obj_started w) (obj_game w) (log w).
Definition set_started (v : bool) (w : World) : World :=
  mkWorld (_scene w) (canvas w) (playing w) v (multiScenes w) (ticker w)
          (systems w) (listeners w) (obj_started w) (obj_game w) (log w).
Definition set_multiScenes (v : option (list Scene)) (w : World) : World :=
  mkWorld (_scene w) (canvas w) (playing w) (started w) v (ticker w)
          (systems w) (listeners w) (obj_started w) (obj_game w) (log w).
Definition set_ticker (v : option Ticker) (w : World) : World :=
  mkWorld (_scene w) (canvas w) (playing w) (started w) (multiScenes w) v
          (systems w) (listeners w) (obj_started w) (obj_game w) (log w).
Definition set_systems (v : list Unit) (w : World) : World :=
  mkWorld (_scene w) (canvas w) (playing w) (started w) (multiScenes w)
          (ticker w) v (listeners w) (obj_started w) (obj_game w) (log w).
Definition set_listeners (v : list string) (w : World) : World :=
  mkWorld (_scene w) (canvas w) (playing w) (started w) (multiScenes w)
          (ticker w) (systems w) v (obj_started w) (obj_game w) (log w).
Definition set_obj_started (v : gset nat) (w : World) : World :=
  mkWorld (_scene w) (canvas w) (playing w) (started w) (multiScenes w)
          (ticker w) (systems w) (listeners w) v (obj_game w) (log w).
Definition set_obj_game (v : gset nat) (w : World) : World :=
  mkWorld (_scene w) (canvas w) (playing w) (started w) (multiScenes w)
          (ticker w) (systems w) (listeners w) (obj_started w) v (log w).
Definition set_log (v : list Event) (w : World) : World :=
  mkWorld (_scene w) (canvas w) (playing w) (started w) (multiScenes w)
          (ticker w) (systems w) (listeners w) (obj_started w) (obj_game w) v.

(** ** Computations that may throw *)

Inductive Completion (A : Type) : Type :=
| Normal (a : A)
| Throw (e : Exn).
Arguments Normal {A} a.
Arguments Throw {A} e.

Definition M (A : Type) : Type := World -> Completion A * World.

Definition ret {A} (a : A) : M A := fun w => (Normal a, w).
Definition throw {A} (e : Exn) : M A := fun w => (Throw e, w).
Definition bind {A B} (m : M A) (k : A -> M B) : M B :=
  fun w => match m w with
           | (Normal a, w') => k a w'
           | (Throw e, w') => (Throw e, w')
           end.
Definition try_catch {A} (m : M A) (handler : Exn -> M A) : M A :=
  fun w => match m w with
           | (Normal a, w') => (Normal a, w')
           | (Throw e, w') => handler e w'
           end.
Definition get : M World := fun w => (Normal w, w).
Definition modify (f : World -> World) : M unit := fun w => (Normal tt, f w).

Notation "x <- m ;; k" := (bind m (fun x => k))
  (at level 100, m at next level, right associativity).
Notation "m ;; k" := (bind m (fun _ => k))
  (at level 100, right associativity).

(** [for (const x of l) body]. *)
Fixpoint for_of {A} (l : list A) (body : A -> M unit) : M unit :=
  match l with
  | [] => ret tt
  | x :: l' => body x ;; for_of l' body
  end.

Definition emit_log (ev : Event) : M unit :=
  modify (fun w => set_log (log w ++ [ev]) w).

Definition console_warn (msg : string) : M unit := emit_log (ConsoleWarn msg).
Definition console_error (msg : string) (e : Exn) : M unit :=
  emit_log (ConsoleError msg e).

(** [obj.h && obj.h(...)]: nothing when the hook is absent. *)
Definition call (h : HookName) (obj : Unit) (impl : Hook) : M unit :=
  match impl with
  | Absent => ret tt
  | Returns => emit_log (Call h obj)
  | Throws e => emit_log (Call h obj) ;; throw e
  end.

(** [x instanceof S]: [S.prototype] is on the prototype chain of [x]. *)
Fixpoint extends (c S : Ctor) : bool :=
  if decide (c = S) then true
  else match c with
       | ObjectCtor => false
       | Class _ super => extends super S
       end.

Definition instanceof (obj : Unit) (S : Ctor) : bool :=
  extends (constructor obj) S.

(** ** The lifecycle helpers *)

Definition triggerStart (obj : Unit) : M unit :=
  if negb (instanceof obj System) && negb (instanceof obj Component)
  then ret tt
  else
    w <- get ;;
    if decide (oid obj ∈ obj_started w) then ret tt
    else
      try_catch (call Hstart obj (start_ obj))
        (fun e =>
           if instanceof obj Component
           then console_error (componentName obj +:+ " start error") e
           else console_error (systemName obj +:+ " start error") e) ;;
      modify (fun w => set_obj_started ({[oid obj]} ∪ obj_started w) w).

Definition getAllGameObjects : M (list GameObject) :=
  game <- get ;;
  let mainSceneGameObjects :=
    match _scene game with
    | Some s => gameObjects s
    | None => []
    end in
  match multiScenes game with
  | None => throw (TypeError "Cannot read properties of null (reading 'map')")
  | Some ms =>
      let gameObjectsArray := map gameObjects ms in
      let otherSceneGameObjects :=
        fold_left (fun acc gos => acc ++ gos) gameObjectsArray [] in
      ret (mainSceneGameObjects ++ otherSceneGameObjects)
  end.

Definition gameObjectLoop (e : FrameEvent) (gos : list GameObject) : M unit :=
  for_of gos (fun gameObject =>
    for_of (components gameObject) (fun component =>
      try_catch
        (triggerStart component ;; call Hupdate component (update component))
        (fun err =>
           console_error ("gameObject: " +:+ go_name gameObject +:+ " "
                          +:+ name component +:+ " update error") err))) ;;
  for_of gos (fun gameObject =>
    for_of (components gameObject) (fun component =>
      try_catch
        (call HlateUpdate component (lateUpdate component))
        (fun err =>
           console_error ("gameObject: " +:+ go_name gameObject +:+ " "
                          +:+ name component +:+ " lateUpdate error") err))).

Definition gameObjectResume (gos : list GameObject) : M unit :=
  for_of gos (fun gameObject =>
    for_of (components gameObject) (fun component =>
      try_catch
        (call HonResume component (onResume component))
        (fun err =>
           console_error ("gameObject: " +:+ go_name gameObject +:+ ", "
                          +:+ name component +:+ ", onResume error") err))).

Definition gameObjectPause (gos : list GameObject) : M unit :=
  for_of gos (fun gameObject =>
    for_of (components gameObject) (fun component =>
      try_catch
        (call HonPause component (onPause component))
        (fun err =>
           console_error ("gameObject: " +:+ go_name gameObject +:+ ", "
                          +:+ name component +:+ ", onResume error") err))).

(** ** The [Game] class *)

(** A class passed where a constructor is expected: its identity and what
    [new S(obj)] builds.  The instance's [constructor] is [S] itself. *)
Record SystemType : Type := mkSystemType {
  st_ctor : Ctor;
  st_new : option Params -> Unit;
}.

Definition with_constructor (c : Ctor) (u : Unit) : Unit :=
  mkUnit (oid u) c (name u) (systemName u) (componentName u)
         (__systemDefaultParams u) (init u) (awake u) (start_ u) (update u)
         (lateUpdate u) (onPause u) (onResume u) (destroy_ u).

Definition new_ (S : SystemType) (obj : option Params) : Unit :=
  with_constructor (st_ctor S) (st_new S obj).

(** The first argument of [addSystem]: a function, an object, or anything
    else. *)
Inductive AddArg : Type :=
| AddClass (S : SystemType)
| AddInstance (S : Unit)
| AddOther.

(** The argument of [removeSystem]; [RmAbsent] stands for [undefined] and
    [null]. *)
Inductive RemoveArg : Type :=
| RmAbsent
| RmName (s : string)
| RmClass (S : Ctor)
| RmInstance (s : Unit).

Inductive GetArg : Type :=
| GetName (s : string)
| GetClass (S : Ctor).

Record LoadSceneParams : Type := mkLoadSceneParams {
  ls_scene : option Scene;
  ls_mode : option LOAD_SCENE_MODE;
  ls_params : option Params;
}.

Record GameParams : Type := mkGameParams {
  gp_autoStart : option bool;
  gp_frameRate : option nat;
  gp_systems : option (list Unit);
  gp_needScene : option bool;
}.

(** [Array.prototype.findIndex]: the index of the first match, or [-1]. *)
Fixpoint findIndex_from {A} (p : A -> bool) (l : list A) (i : Z) : Z :=
  match l with
  | [] => (-1)%Z
  | x :: l' => if p x then i else findIndex_from p l' (i + 1)%Z
  end.

Definition findIndex {A} (p : A -> bool) (l : list A) : Z :=
  findIndex_from p l 0%Z.

(** [Array.prototype.splice(index, 1)] for an index in range. *)
Definition splice1 {A} (index : Z) (l : list A) : list A :=
  delete (Z.to_nat index) l.

(** The external calls. *)
Definition setSystemObserver (system : Unit) (S : Ctor) : M unit :=
  emit_log (SetSystemObserver system S).
Definition initObserver (S : Ctor) : M unit :=
  emit_log (InitObserver S).

Definition ticker_start : M unit :=
  w <- get ;;
  match ticker w with
  | None => throw (TypeError "Cannot read properties of null (reading 'start')")
  | Some t =>
      modify (set_ticker (Some (mkTicker (tk_autoStart t) (tk_frameRate t)
                                         true (tk_callbacks t)))) ;;
      emit_log TickerStart
  end.

Definition ticker_pause : M unit :=
  w <- get ;;
  match ticker w with
  | None => throw (TypeError "Cannot read properties of null (reading 'pause')")
  | Some t =>
      modify (set_ticker (Some (mkTicker (tk_autoStart t) (tk_frameRate t)
                                         false (tk_callbacks t)))) ;;
      emit_log TickerPause
  end.

Definition ticker_add : M unit :=
  w <- get ;;
  match ticker w with
  | None => throw (TypeError "Cannot read properties of null (reading 'add')")
  | Some t =>
      modify (set_ticker (Some (mkTicker (tk_autoStart t) (tk_frameRate t)
                                         (tk_running t) (S (tk_callbacks t)))))
  end.

Definition scene_destroy : M unit :=
  w <- get ;;
  match _scene w with
  | None => throw (TypeError "Cannot read properties of null (reading 'destroy')")
  | Some s => emit_log (SceneDestroy s)
  end.

Definition removeAllListeners : M unit := modify (set_listeners []).

Definition emit (event : string) (payload : SceneChanged) : M unit :=
  emit_log (Emit event payload).

Definition addSystem (S : AddArg) (obj : option Params) : M (option Unit) :=
  match
    match S with
    | AddClass S' => Some (new_ S' obj)
    | AddInstance S' => if instanceof S' System then Some S' else None
    | AddOther => None
    end
  with
  | None => console_warn "can only add System" ;; ret None
  | Some system =>
      this <- get ;;
      let hasTheSystem :=
        find (fun item =>
                bool_decide (constructor item = constructor system))
             (systems this) in
      match hasTheSystem with
      | Some _ =>
          console_warn (systemName system +:+ " System has been added") ;;
          ret None
      | None =>
          modify (fun w => set_obj_game ({[oid system]} ∪ obj_game w) w) ;;
          emit_log (SetGame system) ;;
          call Hinit system (init system) ;;
          setSystemObserver system (constructor system) ;;
          initObserver (constructor system) ;;
          try_catch (call Hawake system (awake system))
            (fun e => console_error (systemName system +:+ " awake error") e) ;;
          modify (fun w => set_systems (systems w ++ [system]) w) ;;
          ret (Some system)
      end
  end.

Definition removeSystem (system : RemoveArg) : M unit :=
  match system with
  | RmAbsent => ret tt
  | RmName EmptyString => ret tt
  | _ =>
      this <- get ;;
      let index :=
        match system with
        | RmName system =>
            findIndex (fun s => bool_decide (name s = system)) (systems this)
        | RmClass system =>
            findIndex (fun s => bool_decide (constructor s = system))
                      (systems this)
        | RmInstance system =>
            if instanceof system System
            then findIndex (fun s => bool_decide (oid s = oid system))
                           (systems this)
            else (-1)%Z
        | RmAbsent => (-1)%Z
        end in
      if (index >? -1)%Z then
        match systems this !! Z.to_nat index with
        | None =>
            throw (TypeError "Cannot read properties of undefined (reading 'destroy')")
        | Some s =>
            call Hdestroy s (destroy_ s) ;;
            modify (fun w => set_systems (splice1 index (systems w)) w)
        end
      else ret tt
  end.

Definition getSystem (S : GetArg) : M (option Unit) :=
  this <- get ;;
  ret (find (fun system =>
               match S with
               | GetName S' => bool_decide (name system = S')
               | GetClass S' => instanceof system S'
               end)
            (systems this)).

(** The getter [gameObjects]. *)
Definition game_gameObjects : M (list GameObject) := getAllGameObjects.

Definition triggerResume : M unit :=
  gos <- game_gameObjects ;;
  gameObjectResume gos ;;
  this <- get ;;
  for_of (systems this) (fun system =>
    try_catch (call HonResume system (onResume system))
      (fun e => console_error (systemName system +:+ ", onResume error") e)).

Definition triggerPause : M unit :=
  gos <- game_gameObjects ;;
  gameObjectPause gos ;;
  this <- get ;;
  for_of (systems this) (fun system =>
    try_catch (call HonPause system (onPause system))
      (fun e => console_error (systemName system +:+ ", onPause error") e)).

Definition pause : M unit :=
  this <- get ;;
  if negb (playing this) then ret tt
  else
    modify (set_playing false) ;;
    ticker_pause ;;
    triggerPause.

Definition start : M unit :=
  this <- get ;;
  if playing this then ret tt
  else
    ticker_start ;;
    modify (set_playing true) ;;
    modify (set_started true).

Definition resume : M unit :=
  this <- get ;;
  if playing this then ret tt
  else
    ticker_start ;;
    triggerResume ;;
    modify (set_playing true).

(** The callback that [initTicker] hands to the ticker: one frame. *)
Definition tick (e : FrameEvent) : M unit :=
  this <- get ;;
  match _scene this with
  | Some _ => gos <- game_gameObjects ;; gameObjectLoop e gos
  | None => ret tt
  end ;;
  this <- get ;;
  for_of (systems this) (fun system =>
    try_catch (triggerStart system ;; call Hupdate system (update system))
      (fun err => console_error (systemName system +:+ " update error") err)) ;;
  this <- get ;;
  for_of (systems this) (fun system =>
    try_catch (call HlateUpdate system (lateUpdate system))
      (fun err =>
         console_error (systemName system +:+ " lateUpdate error") err)).

Definition initTicker : M unit := ticker_add.

Definition destroySystems : M unit :=
  this <- get ;;
  for_of (systems this) (fun system => removeSystem (RmInstance system)) ;;
  modify (set_systems []).

Definition destroy : M unit :=
  removeAllListeners ;;
  pause ;;
  scene_destroy ;;
  destroySystems ;;
  modify (set_ticker None) ;;
  modify (set_scene None) ;;
  modify (set_canvas None) ;;
  modify (set_multiScenes None).

Definition loadScene (p : LoadSceneParams) : M unit :=
  let mode := default SINGLE (ls_mode p) in
  let params := default [] (ls_params p) in
  match ls_scene p with
  | None => ret tt
  | Some scene =>
      match mode with
      | SINGLE => modify (set_scene (Some scene))
      | MULTI_CANVAS =>
          this <- get ;;
          match multiScenes this with
          | None =>
              throw (TypeError "Cannot read properties of null (reading 'push')")
          | Some ms => modify (set_multiScenes (Some (ms ++ [scene])))
          end
      end ;;
      emit "sceneChanged" (mkSceneChanged scene mode params)
  end.

(** The field initialisers of the class, before the constructor body. *)
Definition fresh (frameRate : nat) : World :=
  mkWorld None None false false (Some [])
          (Some (mkTicker false frameRate false 0)) [] [] ∅ ∅ [].

(** The constructor body.  It hands the object [new Scene('scene')] itself
    to [loadScene], which reads the properties [scene], [mode] and [params]
    of its argument; the [Scene] class is not part of this file, so these
    three properties of a new scene are the parameter [scene0]. *)
Definition Game_constructor (p : GameParams) (scene0 : LoadSceneParams) : M unit :=
  initTicker ;;
  match gp_systems p with
  | Some ((_ :: _) as systems) =>
      for_of systems (fun system => addSystem (AddInstance system) None ;; ret tt)
  | _ => ret tt
  end ;;
  (if default true (gp_needScene p) then loadScene scene0 else ret tt) ;;
  (if default true (gp_autoStart p) then start else ret tt).

Definition new_Game (p : GameParams) (scene0 : LoadSceneParams)
  : Completion unit * World :=
  Game_constructor p scene0 (fresh (default 120 (gp_frameRate p))).

(** The public surface, and the frame callback, as one type of calls. *)
Inductive Op : Type :=
| OpAddSystem (S : AddArg) (obj : option Params)
| OpRemoveSystem (system : RemoveArg)
| OpGetSystem (S : GetArg)
| OpPause
| OpStart
| OpResume
| OpTick (e : FrameEvent)
| OpDestroySystems
| OpDestroy
| OpLoadScene (p : LoadSceneParams).

Definition run_op (op : Op) (w : World) : World :=
  match op with
  | OpAddSystem S' obj => (addSystem S' obj w).2
  | OpRemoveSystem system => (removeSystem system w).2
  | OpGetSystem S' => (getSystem S' w).2
  | OpPause => (pause w).2
  | OpStart => (start w).2
  | OpResume => (resume w).2
  | OpTick e => (tick e w).2
  | OpDestroySystems => (destroySystems w).2
  | OpDestroy => (destroy w).2
  | OpLoadScene p => (loadScene p w).2
  end.

Definition run_ops (ops : list Op) (w : World) : World :=
  fold_left (fun w op => run_op op w) ops w.

(** * Pure descriptions of what the dispatch loops do *)

Definition add_log (d : list Event) (w : World) : World :=
  set_log (log w ++ d) w.

(** What a guarded call [try { obj.h && obj.h() } catch (e) { console.error(msg, e) }]
    appends to the log. *)
Definition guarded_trace (h : HookName) (u : Unit) (impl : Hook) (msg : string)
  : list Event :=
  match impl with
  | Absent => []
  | Returns => [Call h u]
  | Throws e => [Call h u; ConsoleError msg e]
  end.

(** A unit together with the message its loop reports on failure. *)
Definition Item : Type := (string * Unit)%type.

Definition hook_body (h : HookName) (sel : Unit -> Hook) (it : Item) : M unit :=
  try_catch (call h it.2 (sel it.2)) (fun err => console_error it.1 err).

Definition update_body (it : Item) : M unit :=
  try_catch (triggerStart it.2 ;; call Hupdate it.2 (update it.2))
            (fun err => console_error it.1 err).

Definition component_items (msg : GameObject -> Unit -> string)
  (gos : list GameObject) : list Item :=
  flat_map (fun go => map (fun c => (msg go c, c)) (components go)) gos.

Definition system_items (msg : Unit -> string) (l : list Unit) : list Item :=
  map (fun s => (msg s, s)) l.

Definition is_unit (u : Unit) : bool :=
  instanceof u System || instanceof u Component.

Definition start_msg (u : Unit) : string :=
  if instanceof u Component then componentName u +:+ " start error"
  else systemName u +:+ " start error".

(** The log of [triggerStart] given the set of started objects. *)
Definition start_trace (st : gset nat) (u : Unit) : list Event :=
  if is_unit u then
    if decide (oid u ∈ st) then [] else guarded_trace Hstart u (start_ u) (start_msg u)
  else [].

Definition start_mark (st : gset nat) (u : Unit) : gset nat :=
  if is_unit u then {[oid u]} ∪ st else st.

Fixpoint update_pass_trace (st : gset nat) (l : list Item) : list Event :=
  match l with
  | [] => []
  | it :: l' =>
      start_trace st it.2 ++ guarded_trace Hupdate it.2 (update it.2) it.1
      ++ update_pass_trace (start_mark st it.2) l'
  end.

Definition update_pass_started (st : gset nat) (l : list Item) : gset nat :=
  fold_left (fun st it => start_mark st it.2) l st.

Definition hook_pass_trace (h : HookName) (sel : Unit -> Hook) (l : list Item)
  : list Event :=
  flat_map (fun it => guarded_trace h it.2 (sel it.2) it.1) l.

(** The flattened population of [getAllGameObjects]. *)
Definition all_gameObjects (main : option Scene) (ms : list Scene)
  : list GameObject :=
  match main with Some s => gameObjects s | None => [] end
  ++ fold_left (fun acc gos => acc ++ gos) (map gameObjects ms) [].

Definition pause_resume_msg (go : GameObject) (c : Unit) : string :=
  "gameObject: " +:+ go_name go +:+ ", " +:+ name c +:+ ", onResume error".

(** ** One frame *)

Definition system_update_msg (s : Unit) : string := systemName s +:+ " update error".
Definition system_lateUpdate_msg (s : Unit) : string :=
  systemName s +:+ " lateUpdate error".

(** The second half of the frame callback: the two loops over the systems. *)
Definition systems_dispatch : M unit :=
  this <- get ;;
  for_of (systems this) (fun system =>
    try_catch (triggerStart system ;; call Hupdate system (update system))
      (fun err => console_error (systemName system +:+ " update error") err)) ;;
  this <- get ;;
  for_of (systems this) (fun system =>
    try_catch (call HlateUpdate system (lateUpdate system))
      (fun err =>
         console_error (systemName system +:+ " lateUpdate error") err)).



Definition sys_update_trace (st : gset nat) (l : list Unit) :=
  update_pass_trace st (system_items system_update_msg l).
Definition sys_late_trace (l : list Unit) :=
  hook_pass_trace HlateUpdate lateUpdate (system_items system_lateUpdate_msg l).

(** ** What a pass may append *)

Definition update_phase_of (us : list Unit) (ev : Event) : Prop :=
  match ev with
  | Call h u => (h = Hstart ∨ h = Hupdate) ∧ u ∈ us
  | ConsoleError _ _ => True
  | _ => False
  end.

Definition late_phase_of (us : list Unit) (ev : Event) : Prop :=
  match ev with
  | Call h u => h = HlateUpdate ∧ u ∈ us
  | ConsoleError _ _ => True
  | _ => False
  end.

(** ** Relations between the state before and the state after *)

(** A computation keeps the relation [R] when every run of it relates the
    state before to the state after, however it completes. *)
Definition preserves (R : World → World → Prop) {A} (m : M A) : Prop :=
  ∀ w, R w (m w).2.




(** ** The system registry *)

(** The object [addSystem] is about to register, if its argument is a
    class or a [System]. *)
Definition resolve_system (S : AddArg) (obj : option Params) : option Unit :=
  match S with
  | AddClass S' => Some (new_ S' obj)
  | AddInstance S' => if instanceof S' System then Some S' else None
  | AddOther => None
  end.

Definition hasTheSystem (system : Unit) (l : list Unit) : option Unit :=
  find (fun item => bool_decide (constructor item = constructor system)) l.

Definition init_trace (system : Unit) : list Event :=
  match init system with
  | Absent => []
  | _ => [Call Hinit system]
  end.

Definition awake_trace (system : Unit) : list Event :=
  guarded_trace Hawake system (awake system) (systemName system +:+ " awake error").

(** The steps of an accepted registration, in the order they are logged. *)
Definition registration_trace (system : Unit) : list Event :=
  [SetGame system] ++ init_trace system
  ++ [SetSystemObserver system (constructor system);
      InitObserver (constructor system)]
  ++ awake_trace system.

Definition registered (system : Unit) (w : World) : World :=
  set_systems (systems w ++ [system])
    (set_obj_game ({[oid system]} ∪ obj_game w)
       (add_log (registration_trace system) w)).

Definition init_failed (system : Unit) (w : World) : World :=
  set_obj_game ({[oid system]} ∪ obj_game w)
    (add_log [SetGame system; Call Hinit system] w).

(** The index [removeSystem] resolves its argument to. *)
Definition resolve_index (system : RemoveArg) (l : list Unit) : Z :=
  match system with
  | RmAbsent => (-1)%Z
  | RmName EmptyString => (-1)%Z
  | RmName system => findIndex (fun s => bool_decide (name s = system)) l
  | RmClass system => findIndex (fun s => bool_decide (constructor s = system)) l
  | RmInstance system =>
      if instanceof system System
      then findIndex (fun s => bool_decide (oid s = oid system)) l
      else (-1)%Z
  end.

(** ** Pause and resume sweeps *)

Definition system_onPause_msg (s : Unit) : string := systemName s +:+ ", onPause error".
Definition system_onResume_msg (s : Unit) : string := systemName s +:+ ", onResume error".

(** What a sweep over all components and then all systems logs. *)
Definition sweep_trace (h : HookName) (sel : Unit → Hook) (msg : Unit → string)
  (ms : list Scene) (w : World) : list Event :=
  hook_pass_trace h sel
    (component_items pause_resume_msg (all_gameObjects (_scene w) ms))
  ++ hook_pass_trace h sel (system_items msg (systems w)).

Definition ticker_running (b : bool) (t : Ticker) : Ticker :=
  mkTicker (tk_autoStart t) (tk_frameRate t) b (tk_callbacks t).

(** * Sample objects *)

Definition sample_unit (i : nat) (c : Ctor) (nm : string)
  (h_init h_awake h_start h_update h_lateUpdate h_destroy : Hook) : Unit :=
  mkUnit i c nm nm nm None h_init h_awake h_start h_update h_lateUpdate
         Returns Returns h_destroy.

Definition Renderer : Ctor := Class 11 System.
Definition Physics : Ctor := Class 12 System.
Definition Audio : Ctor := Class 13 System.
Definition FaultySystem : Ctor := Class 14 System.
Definition Renderer3D : Ctor := Class 21 Renderer.
Definition Sprite : Ctor := Class 31 Component.

Definition renderer : Unit :=
  sample_unit 1 Renderer "Renderer" Returns Returns Returns Returns Returns Returns.
Definition faulty_destroy : Unit :=
  sample_unit 2 Physics "Physics" Absent Absent Returns Returns Absent
              (Throws (Thrown 7)).
Definition audio : Unit :=
  sample_unit 3 Audio "Audio" Absent Absent Absent Returns Absent Absent.
Definition faulty_init : Unit :=
  sample_unit 4 Physics "Physics" (Throws (Thrown 8)) Returns Returns Returns
              Absent Absent.
Definition faulty_awake : Unit :=
  sample_unit 5 FaultySystem "FaultySystem" Returns (Throws (Thrown 9)) Returns
              Returns Absent Absent.
Definition faulty_start : Unit :=
  sample_unit 6 Audio "Audio" Absent Absent (Throws (Thrown 10)) Returns
              Returns Absent.
Definition renderer3d : Unit :=
  sample_unit 7 Renderer3D "Renderer3D" Absent Absent Absent Returns Absent Absent.
Definition sprite : Unit :=
  sample_unit 8 Sprite "Sprite" Absent Absent Returns Returns Returns Absent.

Definition hero : GameObject := mkGameObject "hero" [sprite].
Definition sceneA : Scene := mkScene "A" [hero].
Definition sceneB : Scene := mkScene "B" [].

(** [new Game({ autoStart: false, needScene: false })]. *)
Definition bare : World :=
  (new_Game (mkGameParams (Some false) None None (Some false))
            (mkLoadSceneParams None None None)).2.

Definition add (s : Unit) : Op := OpAddSystem (AddInstance s) None.

(** The same game after three calls of [addSystem]. *)
Definition three_systems : World :=
  run_ops [add renderer; add faulty_destroy; add audio] bare.

(** A game with a secondary scene only. *)
Definition secondary_only : World :=
  run_ops [OpLoadScene (mkLoadSceneParams (Some sceneA) (Some MULTI_CANVAS) None);
           add renderer; add faulty_start] bare.

(** A game with a primary scene. *)
Definition with_scene : World :=
  run_ops [OpLoadScene (mkLoadSceneParams (Some sceneA) None None);
           add renderer; add faulty_start] bare.

(** * Predicates on the registry *)

Definition destroy_returns (s : Unit) : Prop := ∀ e, destroy_ s ≠ Throws e.

Definition remove_each (snapshot : list Unit) : M unit :=
  for_of snapshot (fun system => removeSystem (RmInstance system)).



(** Between two states: no listener comes back and a paused game stays
    paused. *)
Definition settled (w w' : World) : Prop :=
  (listeners w = [] → listeners w' = []) ∧
  (playing w = false → playing w' = false).

(** * Further predicates on states *)

(** The field [f] of the game has the same value after as before. *)
Definition same {A} (f : World → A) (w w' : World) : Prop := f w' = f w.


(** Once [started] is true it stays true. *)
Definition started_sticky (w w' : World) : Prop :=
  started w = true → started w' = true.



(** What [destroy] does after [removeAllListeners] and [pause]. *)
Definition teardown : M unit :=
  scene_destroy ;;
  destroySystems ;;
  modify (set_ticker None) ;;
  modify (set_scene None) ;;
  modify (set_canvas None) ;;
  modify (set_multiScenes None).

(** An entry that a sweep for the hook [h] over the units [us] may log. *)
Definition hook_phase_of (h : HookName) (us : list Unit) (ev : Event) : Prop :=
  match ev with
  | Call h' u => h' = h ∧ u ∈ us
  | ConsoleError _ _ => True
  | _ => False
  end.

(** The game objects of the primary scene, if there is one. *)
Definition primary_gameObjects (w : World) : list GameObject :=
  match _scene w with
  | Some s => gameObjects s
  | None => []
  end.

(** The test [getSystem] applies to a registered system. *)
Definition get_matches (S : GetArg) (s : Unit) : bool :=
  match S with
  | GetName n => bool_decide (name s = n)
  | GetClass c => instanceof s c
  end.

(** The [destroy] call of a system, if it has the hook. *)
Definition destroy_call (s : Unit) : list Event :=
  match destroy_ s with
  | Absent => []
  | _ => [Call Hdestroy s]
  end.

(** The fields of the game other than the registry. *)
Definition outside_registry (w : World) :=
  (_scene w, canvas w, playing w, started w, multiScenes w, ticker w, listeners w).

(** Every registered system points back to the game. *)
Definition registered_have_game (w : World) : Prop :=
  ∀ s, s ∈ systems w → oid s ∈ obj_game w.

Definition keeps_game_refs (w w' : World) : Prop :=
  registered_have_game w → registered_have_game w'.

(** No back-reference is ever cleared. *)
Definition game_refs_grow (w w' : World) : Prop :=
  obj_game w ⊆ obj_game w'.

(** [init] does not throw. *)
Definition init_returns (s : Unit) : Prop := ∀ e, init s ≠ Throws e.

(** The constructor's loop over the [systems] option. *)
Definition add_each (l : list Unit) : M unit :=
  for_of l (fun system => addSystem (AddInstance system) None ;; ret tt).








(** * Basic facts *)

Lemma add_log_nil w : add_log [] w = w.
Proof. destruct w. unfold add_log, set_log. cbn. by rewrite app_nil_r. Qed.

Lemma add_log_add_log d1 d2 w : add_log d2 (add_log d1 w) = add_log (d1 ++ d2) w.
Proof. unfold add_log, set_log. cbn. by rewrite app_assoc. Qed.

Lemma set_obj_started_id w : set_obj_started (obj_started w) w = w.
Proof. by destruct w. Qed.

Lemma set_obj_started_add_log st d w :
  add_log d (set_obj_started st w) = set_obj_started st (add_log d w).
Proof. done. Qed.

Lemma call_spec h u impl w :
  call h u impl w =
  match impl with
  | Absent => (Normal tt, w)
  | Returns => (Normal tt, add_log [Call h u] w)
  | Throws e => (Throw e, add_log [Call h u] w)
  end.
Proof. by destruct impl. Qed.

Lemma guarded_call_spec h u impl msg w :
  try_catch (call h u impl) (fun err => console_error msg err) w
  = (Normal tt, add_log (guarded_trace h u impl msg) w).
Proof.
  unfold try_catch. rewrite call_spec. destruct impl; cbn.
  - by rewrite add_log_nil.
  - done.
  - unfold console_error, emit_log, modify, add_log, set_log. cbn.
    by rewrite <- app_assoc.
Qed.

Lemma hook_body_spec h sel it w :
  hook_body h sel it w
  = (Normal tt, add_log (guarded_trace h it.2 (sel it.2) it.1) w).
Proof. apply guarded_call_spec. Qed.

Lemma for_of_app {A} (l1 l2 : list A) body w :
  for_of (l1 ++ l2) body w = (for_of l1 body ;; for_of l2 body) w.
Proof.
  revert w. induction l1 as [|x l1 IH]; intros w; [done|].
  cbn. unfold bind. destruct (body x w) as [[[]|e] w']; [|done].
  by rewrite IH.
Qed.

Lemma for_of_map {A B} (f : A → B) (l : list A) body w :
  for_of (map f l) body w = for_of l (fun x => body (f x)) w.
Proof.
  revert w. induction l as [|x l IH]; intros w; [done|].
  cbn. unfold bind. destruct (body (f x) w) as [[[]|e] w']; [|done].
  apply IH.
Qed.

(** Controlled unfolding: run the monadic primitives, project the fields. *)
Ltac run_m :=
  cbv beta iota zeta delta
    [bind ret throw get modify try_catch emit_log console_error console_warn
     call setSystemObserver initObserver emit removeAllListeners fst snd].

Ltac world_fields :=
  cbv beta iota delta
    [add_log set_scene set_canvas set_playing set_started set_multiScenes
     set_ticker set_systems set_listeners set_obj_started set_obj_game set_log
     _scene canvas playing started multiScenes ticker systems listeners
     obj_started obj_game log].

(** A nested loop over game objects and their components is one loop over
    the flattened items. *)
Lemma for_of_components msg (body : Item → M unit) gos w :
  for_of gos (fun go => for_of (components go) (fun c => body (msg go c, c))) w
  = for_of (component_items msg gos) body w.
Proof.
  revert w. induction gos as [|go gos IH]; intros w; [done|].
  cbn [for_of component_items flat_map]. rewrite for_of_app.
  unfold bind. rewrite for_of_map.
  destruct (for_of (components go) _ w) as [[[]|e] w']; [|done].
  apply IH.
Qed.

Lemma for_of_hook_pass h sel (l : list Item) w :
  for_of l (hook_body h sel) w
  = (Normal tt, add_log (hook_pass_trace h sel l) w).
Proof.
  revert w. induction l as [|it l IH]; intros w.
  - cbn. by rewrite add_log_nil.
  - cbn [for_of]. unfold bind. rewrite hook_body_spec, IH.
    by rewrite add_log_add_log.
Qed.

Lemma is_unit_guard u :
  negb (instanceof u System) && negb (instanceof u Component) = negb (is_unit u).
Proof. unfold is_unit. by destruct (instanceof u System), (instanceof u Component). Qed.

Lemma triggerStart_spec u w :
  triggerStart u w
  = (Normal tt,
     set_obj_started (start_mark (obj_started w) u)
                     (add_log (start_trace (obj_started w) u) w)).
Proof.
  unfold triggerStart, start_trace, start_mark. rewrite is_unit_guard.
  destruct (is_unit u); cbn.
  - unfold bind, get. destruct (decide (oid u ∈ obj_started w)) as [Hin|Hout].
    + unfold ret. rewrite add_log_nil.
      assert ({[oid u]} ∪ obj_started w = obj_started w) as -> by set_solver.
      by rewrite set_obj_started_id.
    + assert (Hg : ∀ w0,
        try_catch (call Hstart u (start_ u))
          (fun e => if instanceof u Component
                    then console_error (componentName u +:+ " start error") e
                    else console_error (systemName u +:+ " start error") e) w0
        = (Normal tt, add_log (guarded_trace Hstart u (start_ u) (start_msg u)) w0)).
      { intros w0. rewrite <- guarded_call_spec. unfold try_catch, start_msg.
        destruct (call Hstart u (start_ u) w0) as [[[]|e] w']; [done|].
        by destruct (instanceof u Component). }
      rewrite Hg. done.
  - unfold ret. by rewrite add_log_nil, set_obj_started_id.
Qed.

Lemma update_body_spec it w :
  update_body it w
  = (Normal tt,
     set_obj_started (start_mark (obj_started w) it.2)
       (add_log (start_trace (obj_started w) it.2
                 ++ guarded_trace Hupdate it.2 (update it.2) it.1) w)).
Proof.
  unfold update_body, try_catch, bind at 1. rewrite triggerStart_spec.
  rewrite call_spec. destruct (update it.2); cbn [guarded_trace].
  - by rewrite app_nil_r.
  - by rewrite <- add_log_add_log.
  - unfold console_error, emit_log, modify, add_log, set_obj_started, set_log.
    cbn. by rewrite <- !app_assoc.
Qed.

Lemma for_of_update_pass (l : list Item) w :
  for_of l update_body w
  = (Normal tt,
     set_obj_started (update_pass_started (obj_started w) l)
       (add_log (update_pass_trace (obj_started w) l) w)).
Proof.
  revert w. induction l as [|it l IH]; intros w.
  - cbn. by rewrite add_log_nil, set_obj_started_id.
  - cbn [for_of]. unfold bind. rewrite update_body_spec, IH. cbn.
    f_equal. unfold add_log, set_obj_started, set_log. cbn.
    by rewrite !app_assoc.
Qed.

(** * One frame *)


Lemma systems_dispatch_spec w :
  systems_dispatch w
  = (Normal tt,
     set_obj_started
       (update_pass_started (obj_started w) (system_items system_update_msg (systems w)))
       (add_log (sys_update_trace (obj_started w) (systems w)
                 ++ sys_late_trace (systems w)) w)).
Proof.
  unfold systems_dispatch, bind, get.
  rewrite <- (for_of_map (fun s => (system_update_msg s, s)) (systems w) update_body).
  fold (system_items system_update_msg (systems w)).
  rewrite for_of_update_pass. cbn [systems set_obj_started add_log set_log].
  rewrite <- (for_of_map (fun s => (system_lateUpdate_msg s, s)) (systems w)
                (hook_body HlateUpdate lateUpdate)).
  fold (system_items system_lateUpdate_msg (systems w)).
  rewrite for_of_hook_pass. unfold sys_update_trace, sys_late_trace.
  by rewrite set_obj_started_add_log, add_log_add_log.
Qed.

Lemma tick_unfold e w :
  tick e w
  = ((this <- get ;;
      match _scene this with
      | Some _ => gos <- game_gameObjects ;; gameObjectLoop e gos
      | None => ret tt
      end) ;; systems_dispatch) w.
Proof. reflexivity. Qed.

Lemma tick_no_scene e w :
  _scene w = None → tick e w = systems_dispatch w.
Proof. intros H. rewrite tick_unfold. unfold bind, get. by rewrite H. Qed.

Lemma getAllGameObjects_spec w :
  getAllGameObjects w
  = match multiScenes w with
    | None => (Throw (TypeError "Cannot read properties of null (reading 'map')"), w)
    | Some ms => (Normal (all_gameObjects (_scene w) ms), w)
    end.
Proof. unfold getAllGameObjects, bind, get. by destruct (multiScenes w). Qed.


Lemma tick_torn_scene e w s :
  _scene w = Some s → multiScenes w = None →
  tick e w = (Throw (TypeError "Cannot read properties of null (reading 'map')"), w).
Proof.
  intros Hs Hm. rewrite tick_unfold. unfold bind at 1 2, get. rewrite Hs.
  unfold bind at 1, game_gameObjects. by rewrite getAllGameObjects_spec, Hm.
Qed.

(** ** What a pass may append, and what it must append *)

Lemma update_phase_of_mono us us' ev :
  us ⊆ us' → update_phase_of us ev → update_phase_of us' ev.
Proof. intros Hsub. destruct ev; cbn; try done. intros [? ?]. split; [done|]. by apply Hsub. Qed.

Lemma guarded_trace_update_phase h u impl msg us :
  h = Hstart ∨ h = Hupdate → u ∈ us →
  Forall (update_phase_of us) (guarded_trace h u impl msg).
Proof.
  intros Hh Hu.
  destruct impl; cbn; repeat (apply Forall_cons_2; [by cbn|]); apply Forall_nil_2.
Qed.

Lemma start_trace_update_phase st u us :
  u ∈ us → Forall (update_phase_of us) (start_trace st u).
Proof.
  intros Hu. unfold start_trace. destruct (is_unit u); [|constructor].
  destruct (decide (oid u ∈ st)); [constructor|].
  apply guarded_trace_update_phase; auto.
Qed.

Lemma update_pass_trace_phase st (l : list Item) :
  Forall (update_phase_of (map snd l)) (update_pass_trace st l).
Proof.
  revert st. induction l as [|it l IH]; intros st; cbn; [constructor|].
  rewrite !Forall_app. split_and!.
  - apply start_trace_update_phase. left.
  - apply guarded_trace_update_phase; [by right | left].
  - eapply Forall_impl; [apply IH|]. intros ev. apply update_phase_of_mono.
    intros x Hx. by right.
Qed.

Lemma guarded_trace_called h u impl msg :
  impl ≠ Absent → Call h u ∈ guarded_trace h u impl msg.
Proof. destruct impl; [done| |]; intros _; cbn; left. Qed.

Lemma update_pass_trace_complete st (l : list Item) it :
  it ∈ l → update it.2 ≠ Absent → Call Hupdate it.2 ∈ update_pass_trace st l.
Proof.
  revert st. induction l as [|it' l IH]; intros st Hin Hup.
  - by apply elem_of_nil in Hin.
  - cbn. rewrite !elem_of_app. apply elem_of_cons in Hin as [->|Hin].
    + right; left. by apply guarded_trace_called.
    + right; right. by apply IH.
Qed.

Lemma hook_pass_trace_phase (l : list Item) :
  Forall (late_phase_of (map snd l)) (hook_pass_trace HlateUpdate lateUpdate l).
Proof.
  induction l as [|it l IH]; cbn; [constructor|].
  rewrite Forall_app. split.
  - destruct (lateUpdate it.2); cbn;
      repeat (apply Forall_cons_2; [cbn; try split; try done; left|]);
      apply Forall_nil_2.
  - eapply Forall_impl; [apply IH|]. intros [] ; cbn; try done.
    intros [? ?]. split; [done|]. by right.
Qed.

Lemma hook_pass_trace_complete h sel (l : list Item) it :
  it ∈ l → sel it.2 ≠ Absent → Call h it.2 ∈ hook_pass_trace h sel l.
Proof.
  induction l as [|it' l IH]; intros Hin Hs.
  - by apply elem_of_nil in Hin.
  - cbn. rewrite elem_of_app. apply elem_of_cons in Hin as [->|Hin].
    + left. by apply guarded_trace_called.
    + right. by apply IH.
Qed.

Lemma component_items_units msg gos :
  map snd (component_items msg gos) = flat_map components gos.
Proof.
  induction gos as [|go gos IH]; [done|]. cbn [component_items flat_map].
  fold (component_items msg gos).
  rewrite map_app, IH. f_equal. rewrite map_map. cbn. apply map_id.
Qed.

Lemma system_items_units msg l : map snd (system_items msg l) = l.
Proof. unfold system_items. rewrite map_map. cbn. apply map_id. Qed.

Lemma elem_of_items_of_units (l : list Item) u :
  u ∈ map snd l → ∃ it, it ∈ l ∧ it.2 = u.
Proof.
  intros Hin. apply list_elem_of_fmap in Hin as (it & -> & Hit). eauto.
Qed.

Lemma elem_of_update_pass_started o st (l : list Item) :
  o ∈ update_pass_started st l
  ↔ o ∈ st ∨ ∃ u, u ∈ map snd l ∧ is_unit u = true ∧ oid u = o.
Proof.
  revert st. induction l as [|it l IH]; intros st; cbn.
  - split; [by left|]. intros [H|(u & Hu & _)]; [done|]. by apply elem_of_nil in Hu.
  - unfold update_pass_started in IH. rewrite IH. unfold start_mark. split.
    + intros [H|(u & Hu & Hk & Ho)].
      * destruct (is_unit it.2) eqn:Hk.
        -- apply elem_of_union in H as [H|H]; [|by left].
           apply elem_of_singleton in H. right. exists it.2.
           split_and!; [left|done|done].
        -- by left.
      * right. exists u. split_and!; [by right|done|done].
    + intros [H|(u & Hu & Hk & Ho)].
      * left. destruct (is_unit it.2); [|done]. apply elem_of_union. by right.
      * apply elem_of_cons in Hu as [->|Hu].
        -- left. rewrite Hk. apply elem_of_union. left. by apply elem_of_singleton.
        -- right. eauto.
Qed.

(** * The frame callback *)


(** C9. When the primary scene is absent the frame callback is the system
    dispatch alone: it completes normally, the log grows by the systems'
    update segment and lateUpdate segment only, every hook call it logs is
    on a registered system, every system is dispatched, and the started
    flag of an object that is not a registered system is left as it was,
    whatever the secondary scenes contain. *)
Theorem tick_without_primary_scene (e : FrameEvent) (w : World) :
  _scene w = None →
  ∃ su sl : list Event,
    tick e w = systems_dispatch w ∧
    (tick e w).1 = Normal tt ∧
    log (tick e w).2 = log w ++ su ++ sl ∧
    (∀ h c, Call h c ∈ su ++ sl → c ∈ systems w) ∧
    (∀ s, s ∈ systems w → update s ≠ Absent → Call Hupdate s ∈ su) ∧
    (∀ s, s ∈ systems w → lateUpdate s ≠ Absent → Call HlateUpdate s ∈ sl) ∧
    (∀ s, s ∈ systems w → is_unit s = true →
          oid s ∈ obj_started (tick e w).2) ∧
    (∀ c, (∀ s, s ∈ systems w → oid s ≠ oid c) →
          (oid c ∈ obj_started (tick e w).2 ↔ oid c ∈ obj_started w)).
Proof.
  intros Hs.
  exists (sys_update_trace (obj_started w) (systems w)),
         (sys_late_trace (systems w)).
  rewrite (tick_no_scene e w Hs), systems_dispatch_spec. cbn [fst snd].
  split_and!; try done.
  - intros h c Hin. apply elem_of_app in Hin as [Hin|Hin].
    + pose proof (update_pass_trace_phase (obj_started w)
        (system_items system_update_msg (systems w))) as H.
      rewrite system_items_units in H.
      rewrite Forall_forall in H. by destruct (H _ Hin).
    + pose proof (hook_pass_trace_phase
        (system_items system_lateUpdate_msg (systems w))) as H.
      rewrite system_items_units in H.
      rewrite Forall_forall in H. by destruct (H _ Hin).
  - intros s Hin Hup.
    apply (update_pass_trace_complete _ _ (system_update_msg s, s)); [|done].
    unfold system_items. apply list_elem_of_fmap. eauto.
  - intros s Hin Hup.
    apply (hook_pass_trace_complete HlateUpdate lateUpdate _
             (system_lateUpdate_msg s, s)); [|done].
    unfold system_items. apply list_elem_of_fmap. eauto.
  - intros s Hin Hk. cbn. apply elem_of_update_pass_started. right.
    exists s. by rewrite system_items_units.
  - intros c Hc. cbn. rewrite elem_of_update_pass_started.
    rewrite system_items_units. split; [|by left].
    intros [H|(u & Hu & _ & Ho)]; [done|]. by destruct (Hc u Hu).
Qed.

(** * Relations kept by every step of a computation *)

Section Preservation.
Variable R : World → World → Prop.
Hypothesis R_refl : ∀ w, R w w.
Hypothesis R_trans : ∀ a b c, R a b → R b c → R a c.

Lemma preserves_ret {A} (a : A) : preserves R (ret a).
Proof using R_refl. intros w. apply R_refl. Qed.

Lemma preserves_throw {A} e : preserves R (@throw A e).
Proof using R_refl. intros w. apply R_refl. Qed.

Lemma preserves_get : preserves R get.
Proof using R_refl. intros w. apply R_refl. Qed.

Lemma preserves_bind {A B} (m : M A) (k : A → M B) :
  preserves R m → (∀ a, preserves R (k a)) → preserves R (bind m k).
Proof using R_trans.
  intros Hm Hk w. unfold bind. specialize (Hm w).
  destruct (m w) as [[a|e] w']; [|done].
  eapply R_trans; [exact Hm|apply Hk].
Qed.

Lemma preserves_try_catch {A} (m : M A) (h : Exn → M A) :
  preserves R m → (∀ e, preserves R (h e)) → preserves R (try_catch m h).
Proof using R_trans.
  intros Hm Hh w. unfold try_catch. specialize (Hm w).
  destruct (m w) as [[a|e] w']; [done|].
  eapply R_trans; [exact Hm|apply Hh].
Qed.

Lemma preserves_for_of {A} (l : list A) (body : A → M unit) :
  (∀ x, preserves R (body x)) → preserves R (for_of l body).
Proof using R_refl R_trans.
  intros Hb. induction l as [|x l IH]; [apply preserves_ret|].
  cbn. apply preserves_bind; [apply Hb|done].
Qed.

Lemma preserves_modify (f : World → World) :
  (∀ w, R w (f w)) → preserves R (modify f).
Proof. intros Hf w. apply Hf. Qed.

End Preservation.

(** One step of a proof that a computation keeps a relation: [Hrefl] and
    [Htrans] are the order laws of the relation, [leaf] deals with the
    primitive computations. *)
Ltac preserves_step Hrefl Htrans leaf :=
  lazymatch goal with
  | |- preserves _ (bind _ _) =>
      apply preserves_bind; [apply Htrans| |intros ?]
  | |- preserves _ (ret _) => apply preserves_ret, Hrefl
  | |- preserves _ (throw _) => apply preserves_throw, Hrefl
  | |- preserves _ get => apply preserves_get, Hrefl
  | |- preserves _ (try_catch _ _) =>
      apply preserves_try_catch; [apply Htrans| |intros ?]
  | |- preserves _ (for_of _ _) =>
      apply preserves_for_of; [apply Hrefl|apply Htrans|intros ?]
  | |- preserves _ (match ?x with _ => _ end) => destruct x
  | |- preserves _ (let _ := _ in _) => cbv zeta
  | |- _ => leaf
  end.

(** The methods that are plain compositions of the primitives. *)
Ltac unfold_plumbing :=
  unfold destroy, destroySystems, loadScene, tick, resume, start, pause,
    triggerPause, triggerResume, getSystem, Game_constructor,
    game_gameObjects, gameObjectPause, gameObjectResume, gameObjectLoop,
    getAllGameObjects, emit, removeAllListeners, scene_destroy, ticker_add,
    ticker_pause, ticker_start, initObserver, setSystemObserver, initTicker,
    console_error, console_warn.

(** ** The started flag *)














(** * The system registry *)

Lemma addSystem_spec S obj w :
  addSystem S obj w =
  match resolve_system S obj with
  | None => (Normal None, add_log [ConsoleWarn "can only add System"] w)
  | Some system =>
      match hasTheSystem system (systems w) with
      | Some _ =>
          (Normal None,
           add_log [ConsoleWarn (systemName system +:+ " System has been added")] w)
      | None =>
          match init system with
          | Throws e => (Throw e, init_failed system w)
          | _ => (Normal (Some system), registered system w)
          end
      end
  end.
Proof.
  unfold addSystem. fold (resolve_system S obj).
  destruct (resolve_system S obj) as [system|]; [|done].
  unfold bind at 1, get. fold (hasTheSystem system (systems w)).
  destruct (hasTheSystem system (systems w)); [done|].
  unfold registered, init_failed, registration_trace, init_trace, awake_trace,
    guarded_trace.
  destruct w. destruct (init system), (awake system); run_m; world_fields;
    rewrite <- ?app_assoc; reflexivity.
Qed.

Lemma findIndex_from_spec {A} (p : A → bool) (l : list A) (i : Z) :
  (findIndex_from p l i = (-1)%Z ∧ Forall (fun x => p x = false) l ∨
   ∃ k x, findIndex_from p l i = (i + Z.of_nat k)%Z ∧ l !! k = Some x ∧
          p x = true ∧ Forall (fun y => p y = false) (take k l)) ∨ (i < 0)%Z.
Proof.
  destruct (decide (i < 0)%Z) as [|Hi]; [by right|]. left.
  revert i Hi. induction l as [|x l IH]; intros i Hi; cbn.
  - left. split; [done|constructor].
  - destruct (p x) eqn:Hp.
    + right. exists 0, x. split_and!; [lia|done|done|constructor].
    + destruct (IH (i + 1)%Z ltac:(lia)) as [[-> Hall]|(k & y & -> & Hk & Hy & Hall)].
      * left. split; [done|]. by constructor.
      * right. exists (S k), y. split_and!; [lia|done|done|]. cbn. by constructor.
Qed.

Lemma findIndex_spec {A} (p : A → bool) (l : list A) :
  findIndex p l = (-1)%Z ∧ Forall (fun x => p x = false) l ∨
  ∃ k x, findIndex p l = Z.of_nat k ∧ l !! k = Some x ∧ p x = true ∧
         Forall (fun y => p y = false) (take k l).
Proof.
  unfold findIndex.
  destruct (findIndex_from_spec p l 0) as [[H|(k & x & H & ?)]|?]; [by left| |lia].
  right. exists k, x. by rewrite H.
Qed.

(** A resolved index is [-1] or points at a registry entry. *)
Lemma resolve_index_spec system l :
  resolve_index system l = (-1)%Z ∨
  ∃ k s, resolve_index system l = Z.of_nat k ∧ l !! k = Some s.
Proof.
  unfold resolve_index. destruct system as [|n|c|s]; [by left| | |].
  - destruct n; [by left|].
    destruct (findIndex_spec (fun s => bool_decide (name s = String a n)) l)
      as [[-> _]|(k & x & -> & ? & _)]; [by left|right; eauto].
  - destruct (findIndex_spec (fun s => bool_decide (constructor s = c)) l)
      as [[-> _]|(k & x & -> & ? & _)]; [by left|right; eauto].
  - destruct (instanceof s System); [|by left].
    destruct (findIndex_spec (fun s0 => bool_decide (oid s0 = oid s)) l)
      as [[-> _]|(k & x & -> & ? & _)]; [by left|right; eauto].
Qed.

Lemma removeSystem_unfold system w :
  removeSystem system w =
  let index := resolve_index system (systems w) in
  if (index >? -1)%Z then
    match systems w !! Z.to_nat index with
    | None =>
        (Throw (TypeError "Cannot read properties of undefined (reading 'destroy')"), w)
    | Some s =>
        (call Hdestroy s (destroy_ s) ;;
         modify (fun w => set_systems (splice1 index (systems w)) w)) w
    end
  else (Normal tt, w).
Proof.
  assert (Hgo : ∀ index : Z,
    (if (index >? -1)%Z
     then match systems w !! Z.to_nat index with
          | None =>
              throw (TypeError "Cannot read properties of undefined (reading 'destroy')")
          | Some s =>
              call Hdestroy s (destroy_ s) ;;
              modify (fun w => set_systems (splice1 index (systems w)) w)
          end
     else ret tt) w
    = if (index >? -1)%Z
      then match systems w !! Z.to_nat index with
           | None =>
               (Throw (TypeError "Cannot read properties of undefined (reading 'destroy')"), w)
           | Some s =>
               (call Hdestroy s (destroy_ s) ;;
                modify (fun w => set_systems (splice1 index (systems w)) w)) w
           end
      else (Normal tt, w)).
  { intros index. destruct (index >? -1)%Z; [|reflexivity].
    destruct (systems w !! Z.to_nat index); reflexivity. }
  destruct system as [|n|c|s]; [reflexivity| |apply Hgo|apply Hgo].
  destruct n; [reflexivity|apply Hgo].
Qed.

(** [removeSystem] when it found nothing. *)
Lemma removeSystem_not_found system w :
  resolve_index system (systems w) = (-1)%Z → removeSystem system w = (Normal tt, w).
Proof. intros H. rewrite removeSystem_unfold. cbn zeta. by rewrite H. Qed.

(** [removeSystem] when it found the entry at position [k]. *)
Lemma removeSystem_found system w k s :
  resolve_index system (systems w) = Z.of_nat k → systems w !! k = Some s →
  removeSystem system w =
  match destroy_ s with
  | Absent => (Normal tt, set_systems (delete k (systems w)) w)
  | Returns =>
      (Normal tt, set_systems (delete k (systems w)) (add_log [Call Hdestroy s] w))
  | Throws e => (Throw e, add_log [Call Hdestroy s] w)
  end.
Proof.
  intros Hi Hk. rewrite removeSystem_unfold. cbn zeta. rewrite Hi.
  assert ((Z.of_nat k >? -1)%Z = true) as -> by lia.
  rewrite Nat2Z.id, Hk. unfold bind, splice1. rewrite call_spec, Nat2Z.id.
  by destruct (destroy_ s).
Qed.

(** * Pause and resume sweeps *)

Lemma triggerPause_spec w ms :
  multiScenes w = Some ms →
  triggerPause w
  = (Normal tt, add_log (sweep_trace HonPause onPause system_onPause_msg ms w) w).
Proof.
  intros Hm. unfold triggerPause, bind at 1, game_gameObjects.
  rewrite getAllGameObjects_spec, Hm. unfold bind at 1, gameObjectPause.
  rewrite (for_of_components pause_resume_msg (hook_body HonPause onPause)).
  rewrite for_of_hook_pass. unfold bind, get. cbn [systems add_log set_log].
  rewrite <- (for_of_map (fun s => (system_onPause_msg s, s)) (systems w)
                (hook_body HonPause onPause)).
  fold (system_items system_onPause_msg (systems w)).
  rewrite for_of_hook_pass. by rewrite add_log_add_log.
Qed.

Lemma triggerResume_spec w ms :
  multiScenes w = Some ms →
  triggerResume w
  = (Normal tt, add_log (sweep_trace HonResume onResume system_onResume_msg ms w) w).
Proof.
  intros Hm. unfold triggerResume, bind at 1, game_gameObjects.
  rewrite getAllGameObjects_spec, Hm. unfold bind at 1, gameObjectResume.
  rewrite (for_of_components pause_resume_msg (hook_body HonResume onResume)).
  rewrite for_of_hook_pass. unfold bind, get. cbn [systems add_log set_log].
  rewrite <- (for_of_map (fun s => (system_onResume_msg s, s)) (systems w)
                (hook_body HonResume onResume)).
  fold (system_items system_onResume_msg (systems w)).
  rewrite for_of_hook_pass. by rewrite add_log_add_log.
Qed.

Lemma ticker_start_spec w t :
  ticker w = Some t →
  ticker_start w
  = (Normal tt, add_log [TickerStart] (set_ticker (Some (ticker_running true t)) w)).
Proof. intros Ht. unfold ticker_start. run_m. rewrite Ht. by run_m. Qed.

Lemma ticker_pause_spec w t :
  ticker w = Some t →
  ticker_pause w
  = (Normal tt, add_log [TickerPause] (set_ticker (Some (ticker_running false t)) w)).
Proof. intros Ht. unfold ticker_pause. run_m. rewrite Ht. by run_m. Qed.

Lemma start_spec w t :
  ticker w = Some t →
  start w
  = if playing w then (Normal tt, w)
    else (Normal tt,
          set_started true
            (set_playing true
               (add_log [TickerStart]
                  (set_ticker (Some (ticker_running true t)) w)))).
Proof.
  intros Ht. unfold start, bind at 1, get. destruct (playing w); [done|].
  unfold bind at 1. by rewrite (ticker_start_spec w t).
Qed.

Lemma pause_spec w t ms :
  ticker w = Some t → multiScenes w = Some ms →
  pause w
  = if playing w then
      (Normal tt,
       add_log (TickerPause :: sweep_trace HonPause onPause system_onPause_msg ms w)
         (set_ticker (Some (ticker_running false t)) (set_playing false w)))
    else (Normal tt, w).
Proof.
  intros Ht Hm. unfold pause, bind at 1, get. destruct (playing w); [|done].
  cbn [negb]. unfold bind at 1 2, modify.
  rewrite (ticker_pause_spec _ t) by done.
  rewrite (triggerPause_spec _ ms) by done.
  f_equal. unfold sweep_trace. world_fields. by rewrite <- app_assoc.
Qed.

Lemma resume_spec w t ms :
  ticker w = Some t → multiScenes w = Some ms →
  resume w
  = if playing w then (Normal tt, w)
    else
      (Normal tt,
       set_playing true
         (add_log (TickerStart :: sweep_trace HonResume onResume system_onResume_msg ms w)
            (set_ticker (Some (ticker_running true t)) w))).
Proof.
  intros Ht Hm. unfold resume, bind at 1, get. destruct (playing w); [done|].
  unfold bind at 1 2. rewrite (ticker_start_spec _ t) by done.
  rewrite (triggerResume_spec _ ms) by done.
  unfold bind, modify.
  f_equal. unfold sweep_trace. world_fields. by rewrite <- app_assoc.
Qed.

(** * Failure containment *)

(** C1, as the code has it. [removeSystem] calls [destroy] unguarded: when
    the hook throws, the exception leaves [removeSystem] and the entry stays
    registered; when the hook is absent or returns, the entry is removed;
    when nothing is found nothing happens.  [addSystem] calls [init]
    unguarded: when an accepted system's [init] throws, the exception leaves
    [addSystem] and nothing is appended; otherwise the system is appended and
    returned, whatever [awake] does; a rejected registration returns
    nothing.  On a game whose ticker and secondary-scene list are present,
    [start], [pause] and [resume] complete normally whatever the hooks do. *)
Theorem hook_failure_containment :
  (∀ system w k s,
     resolve_index system (systems w) = Z.of_nat k → systems w !! k = Some s →
     match destroy_ s with
     | Throws e =>
         (removeSystem system w).1 = Throw e ∧
         systems (removeSystem system w).2 = systems w
     | _ =>
         (removeSystem system w).1 = Normal tt ∧
         systems (removeSystem system w).2 = delete k (systems w)
     end) ∧
  (∀ system w,
     resolve_index system (systems w) = (-1)%Z →
     removeSystem system w = (Normal tt, w)) ∧
  (∀ S obj w system,
     resolve_system S obj = Some system →
     hasTheSystem system (systems w) = None →
     match init system with
     | Throws e =>
         (addSystem S obj w).1 = Throw e ∧
         systems (addSystem S obj w).2 = systems w
     | _ =>
         (addSystem S obj w).1 = Normal (Some system) ∧
         systems (addSystem S obj w).2 = systems w ++ [system]
     end) ∧
  (∀ S obj w,
     (resolve_system S obj = None ∨
      ∃ system other, resolve_system S obj = Some system ∧
                      hasTheSystem system (systems w) = Some other) →
     (addSystem S obj w).1 = Normal None) ∧
  (∀ w, is_Some (ticker w) → is_Some (multiScenes w) →
        (start w).1 = Normal tt ∧ (pause w).1 = Normal tt ∧
        (resume w).1 = Normal tt).
Proof.
  split_and!.
  - intros system w k s Hi Hk. rewrite (removeSystem_found system w k s Hi Hk).
    by destruct (destroy_ s).
  - intros system w. apply removeSystem_not_found.
  - intros S obj w system Hr Hh. rewrite addSystem_spec, Hr, Hh.
    by destruct (init system).
  - intros S obj w [Hr|(system & other & Hr & Hh)]; rewrite addSystem_spec, Hr;
      [done|by rewrite Hh].
  - intros w [t Ht] [ms Hm].
    rewrite (start_spec w t Ht), (pause_spec w t ms Ht Hm),
      (resume_spec w t ms Ht Hm).
    by destruct (playing w).
Qed.

(** C1 fails on the code: removing a registered system whose [destroy]
    throws lets the exception out of [removeSystem] and leaves the entry in
    the registry, and an [init] that throws leaves [addSystem]. *)
Lemma removeSystem_destroy_escapes :
  (removeSystem (RmInstance faulty_destroy) three_systems).1 = Throw (Thrown 7) ∧
  systems (removeSystem (RmInstance faulty_destroy) three_systems).2
  = [renderer; faulty_destroy; audio] ∧
  (addSystem (AddInstance faulty_init) None bare).1 = Throw (Thrown 8).
Proof. split_and!; reflexivity. Qed.

Lemma hook_failure_containment_witness :
  ((removeSystem (RmName "Physics") three_systems).1 = Throw (Thrown 7) ∧
   systems (removeSystem (RmName "Physics") three_systems).2 = systems three_systems) ∧
  ((removeSystem (RmClass Audio) three_systems).1 = Normal tt ∧
   systems (removeSystem (RmClass Audio) three_systems).2
   = delete 2 (systems three_systems)) ∧
  removeSystem (RmName "Missing") three_systems = (Normal tt, three_systems) ∧
  ((addSystem (AddInstance faulty_awake) None bare).1 = Normal (Some faulty_awake) ∧
   systems (addSystem (AddInstance faulty_awake) None bare).2 = [faulty_awake]) ∧
  (addSystem (AddInstance renderer) None three_systems).1 = Normal None ∧
  ((start bare).1 = Normal tt ∧ (pause bare).1 = Normal tt ∧
   (resume bare).1 = Normal tt).
Proof.
  destruct hook_failure_containment as (Hrm & Hnone & Hadd & Hrej & Hrun).
  split; [|split; [|split; [|split; [|split]]]].
  - exact (Hrm (RmName "Physics") three_systems 1 faulty_destroy eq_refl eq_refl).
  - exact (Hrm (RmClass Audio) three_systems 2 audio eq_refl eq_refl).
  - exact (Hnone (RmName "Missing") three_systems eq_refl).
  - exact (Hadd (AddInstance faulty_awake) None bare faulty_awake eq_refl eq_refl).
  - apply (Hrej (AddInstance renderer) None three_systems). right.
    exists renderer, renderer. split; reflexivity.
  - apply (Hrun bare); eexists; reflexivity.
Defined.

(** * Emptying the registry *)

Lemma destroySystems_unfold w :
  destroySystems w = (remove_each (systems w) ;; modify (set_systems [])) w.
Proof. reflexivity. Qed.

Lemma removeSystem_quiet system w :
  Forall destroy_returns (systems w) →
  (removeSystem system w).1 = Normal tt ∧
  Forall destroy_returns (systems (removeSystem system w).2).
Proof.
  intros Hall.
  destruct (resolve_index_spec system (systems w)) as [Hi|(k & s & Hi & Hk)].
  - by rewrite (removeSystem_not_found system w Hi).
  - rewrite (removeSystem_found system w k s Hi Hk).
    assert (Hs : destroy_returns s).
    { rewrite Forall_forall in Hall. apply Hall. by eapply list_elem_of_lookup_2. }
    destruct (destroy_ s) eqn:Hd; cbn [fst snd systems set_systems add_log set_log].
    + split; [done|]. by apply Forall_delete.
    + split; [done|]. by apply Forall_delete.
    + by destruct (Hs e).
Qed.

Lemma remove_each_quiet snapshot w :
  Forall destroy_returns (systems w) →
  (remove_each snapshot w).1 = Normal tt ∧
  Forall destroy_returns (systems (remove_each snapshot w).2).
Proof.
  revert w. induction snapshot as [|x l IH]; intros w Hall; [done|].
  unfold remove_each. cbn [for_of]. unfold bind.
  destruct (removeSystem_quiet (RmInstance x) w Hall) as [Hn Hall'].
  destruct (removeSystem (RmInstance x) w) as [[[]|e] w']; [|done].
  apply (IH w' Hall').
Qed.

Lemma resolve_index_head s l :
  instanceof s System = true → resolve_index (RmInstance s) (s :: l) = 0%Z.
Proof.
  intros Hs. unfold resolve_index. rewrite Hs. unfold findIndex. cbn.
  by rewrite bool_decide_eq_true_2.
Qed.

Lemma remove_each_first_throw pre s post e w :
  systems w = pre ++ s :: post →
  Forall (fun u => instanceof u System = true) (pre ++ [s]) →
  Forall destroy_returns pre →
  destroy_ s = Throws e →
  (remove_each (pre ++ s :: post) w).1 = Throw e ∧
  systems (remove_each (pre ++ s :: post) w).2 = s :: post.
Proof.
  revert w. induction pre as [|x pre IH]; intros w Hsys Hinst Hret Hd.
  - cbn [app] in *. apply Forall_cons in Hinst as [Hs _].
    unfold remove_each. cbn [for_of]. unfold bind.
    rewrite (removeSystem_found (RmInstance s) w 0 s).
    + by rewrite Hd.
    + rewrite Hsys. by apply resolve_index_head.
    + by rewrite Hsys.
  - cbn [app] in Hsys, Hinst. apply Forall_cons in Hinst as [Hx Hinst].
    apply Forall_cons in Hret as [Hrx Hret].
    unfold remove_each. cbn [app for_of]. unfold bind.
    rewrite (removeSystem_found (RmInstance x) w 0 x).
    2:{ rewrite Hsys. by apply resolve_index_head. }
    2:{ by rewrite Hsys. }
    destruct (destroy_ x) eqn:Hdx.
    + apply IH; [|done..]. cbn. by rewrite Hsys.
    + apply IH; [|done..]. cbn. by rewrite Hsys.
    + by destruct (Hrx e0).
Qed.

Lemma destroySystems_returns_empty w :
  (destroySystems w).1 = Normal tt → systems (destroySystems w).2 = [].
Proof.
  rewrite destroySystems_unfold. unfold bind.
  by destruct (remove_each (systems w) w) as [[[]|e] w'].
Qed.

(** C2, as the code has it.  [destroySystems] empties the registry whenever
    it returns, and it returns whenever no registered [destroy] hook throws.
    When a hook throws, the exception leaves [destroySystems] at the first
    such system, and that system and those after it stay registered. *)
Theorem destroySystems_empties_unless_destroy_throws :
  (∀ w, Forall destroy_returns (systems w) →
        (destroySystems w).1 = Normal tt ∧ systems (destroySystems w).2 = []) ∧
  (∀ w, (destroySystems w).1 = Normal tt → systems (destroySystems w).2 = []) ∧
  (∀ w pre s post e,
     systems w = pre ++ s :: post →
     Forall (fun u => instanceof u System = true) (pre ++ [s]) →
     Forall destroy_returns pre →
     destroy_ s = Throws e →
     (destroySystems w).1 = Throw e ∧ systems (destroySystems w).2 = s :: post).
Proof.
  split_and!.
  - intros w Hall. rewrite destroySystems_unfold. unfold bind.
    destruct (remove_each_quiet (systems w) w Hall) as [Hn _].
    by destruct (remove_each (systems w) w) as [[[]|e] w'].
  - apply destroySystems_returns_empty.
  - intros w pre s post e Hsys Hinst Hret Hd. rewrite destroySystems_unfold.
    unfold bind. rewrite Hsys.
    destruct (remove_each_first_throw pre s post e w Hsys Hinst Hret Hd) as [H1 H2].
    by destruct (remove_each (pre ++ s :: post) w) as [[[]|e'] w'].
Qed.

(** C2 fails on the code: with three systems of which the second one's
    [destroy] throws, [destroySystems] is left by the exception and two
    systems are still registered. *)
Lemma destroySystems_second_throws :
  (destroySystems three_systems).1 = Throw (Thrown 7) ∧
  length (systems (destroySystems three_systems).2) = 2 ∧
  systems (destroySystems three_systems).2 = [faulty_destroy; audio].
Proof. split_and!; reflexivity. Qed.

Lemma destroySystems_empties_witness :
  ((destroySystems (run_ops [add renderer; add audio] bare)).1 = Normal tt ∧
   systems (destroySystems (run_ops [add renderer; add audio] bare)).2 = []) ∧
  ((destroySystems three_systems).1 = Throw (Thrown 7) ∧
   systems (destroySystems three_systems).2 = [faulty_destroy; audio]).
Proof.
  destruct destroySystems_empties_unless_destroy_throws as (Hall & _ & Hthrow).
  split.
  - apply (Hall (run_ops [add renderer; add audio] bare)).
    repeat (apply Forall_cons_2; [intros e; discriminate|]). apply Forall_nil_2.
  - apply (Hthrow three_systems [renderer] faulty_destroy [audio] (Thrown 7)).
    + reflexivity.
    + repeat (apply Forall_cons_2; [reflexivity|]). apply Forall_nil_2.
    + repeat (apply Forall_cons_2; [intros e; discriminate|]). apply Forall_nil_2.
    + reflexivity.
Defined.

(** * One system per concrete type *)












(** * The steps of a registration *)

Lemma addSystem_accepted S obj w system :
  resolve_system S obj = Some system →
  hasTheSystem system (systems w) = None →
  (∀ e, init system ≠ Throws e) →
  addSystem S obj w = (Normal (Some system), registered system w).
Proof.
  intros Hr Hh Hinit. rewrite addSystem_spec, Hr, Hh.
  destruct (init system) eqn:Hi; [done|done|by destruct (Hinit e)].
Qed.



(** * Lookup by [instanceof], registration and removal by constructor *)

Lemma Class_neq i B : Class i B ≠ B.
Proof. revert i. induction B as [|j B IH]; intros i H; [done|]. inversion H. by eapply IH. Qed.

Lemma extends_refl c : extends c c = true.
Proof. destruct c; cbn; by rewrite decide_True. Qed.

Lemma findIndex_none {A} (p : A → bool) l :
  Forall (fun x => p x = false) l → findIndex p l = (-1)%Z.
Proof.
  unfold findIndex. generalize 0%Z. induction l as [|x l IH]; intros i Hall; [done|].
  apply Forall_cons in Hall as [Hx Hall]. cbn. rewrite Hx. by apply IH.
Qed.

(** C10. [getSystem] with a constructor returns the first registered
    system that is an instance of it, and an instance of a subclass is an
    instance of the base class.  The duplicate check of [addSystem] compares
    constructors for identity, so an instance of a subclass is registered
    next to an instance of its base class; [removeSystem] with the base
    constructor never resolves to the entry of a subclass instance, and
    leaves a registry that holds only that instance as it is. *)
Theorem instanceof_lookup_identity_registration :
  (∀ B w, getSystem (GetClass B) w
          = (Normal (find (fun s => instanceof s B) (systems w)), w)) ∧
  (∀ i B sub, constructor sub = Class i B → instanceof sub B = true) ∧
  (∀ i B sub rest w,
     constructor sub = Class i B → systems w = sub :: rest →
     getSystem (GetClass B) w = (Normal (Some sub), w)) ∧
  (∀ i base sub obj w,
     constructor sub = Class i (constructor base) →
     instanceof sub System = true →
     (∀ e, init sub ≠ Throws e) →
     systems w = [base] →
     (addSystem (AddInstance sub) obj w).1 = Normal (Some sub) ∧
     systems (addSystem (AddInstance sub) obj w).2 = [base; sub]) ∧
  (∀ i B sub w k,
     constructor sub = Class i B → systems w !! k = Some sub →
     resolve_index (RmClass B) (systems w) ≠ Z.of_nat k) ∧
  (∀ i B sub w,
     constructor sub = Class i B → systems w = [sub] →
     removeSystem (RmClass B) w = (Normal tt, w)).
Proof.
  assert (Hinst : ∀ i B sub, constructor sub = Class i B → instanceof sub B = true).
  { intros i B sub Hc. unfold instanceof. rewrite Hc. cbn.
    rewrite decide_False by apply Class_neq. apply extends_refl. }
  split_and!.
  - reflexivity.
  - exact Hinst.
  - intros i B sub rest w Hc Hsys. unfold getSystem, bind, get, ret.
    rewrite Hsys. cbn [find]. by rewrite (Hinst i B sub Hc).
  - intros i base sub obj w Hc Hs Hinit Hsys.
    assert (Hh : hasTheSystem sub (systems w) = None).
    { rewrite Hsys. unfold hasTheSystem. cbn [find]. rewrite Hc.
      rewrite bool_decide_eq_false_2; [done|]. intros H. symmetry in H.
      by apply Class_neq in H. }
    assert (Hr : resolve_system (AddInstance sub) obj = Some sub).
    { unfold resolve_system. by rewrite Hs. }
    rewrite (addSystem_accepted _ obj w sub Hr Hh Hinit).
    split; [done|]. unfold registered. cbn [snd systems set_systems].
    change (systems w ++ [sub] = [base; sub]). by rewrite Hsys.
  - intros i B sub w k Hc Hk Hi. unfold resolve_index in Hi.
    destruct (findIndex_spec (fun s => bool_decide (constructor s = B)) (systems w))
      as [[Hn _]|(k' & x & Hf & Hx & Hp & _)]; [lia|].
    rewrite Hf in Hi. apply Nat2Z.inj in Hi. subst k'.
    rewrite Hk in Hx. injection Hx as <-.
    apply bool_decide_eq_true in Hp. rewrite Hc in Hp. by apply Class_neq in Hp.
  - intros i B sub w Hc Hsys. apply removeSystem_not_found.
    unfold resolve_index. apply findIndex_none. rewrite Hsys.
    apply Forall_cons_2; [|apply Forall_nil_2].
    apply bool_decide_eq_false_2. rewrite Hc. apply Class_neq.
Qed.

Lemma instanceof_lookup_identity_registration_witness :
  instanceof renderer3d Renderer = true ∧
  getSystem (GetClass Renderer) (run_ops [add renderer3d; add renderer] bare)
  = (Normal (Some renderer3d), run_ops [add renderer3d; add renderer] bare) ∧
  ((addSystem (AddInstance renderer3d) None (run_ops [add renderer] bare)).1
   = Normal (Some renderer3d) ∧
   systems (addSystem (AddInstance renderer3d) None (run_ops [add renderer] bare)).2
   = [renderer; renderer3d]) ∧
  resolve_index (RmClass Renderer) (systems (run_ops [add renderer3d; add renderer] bare))
  ≠ 0%Z ∧
  removeSystem (RmClass Renderer) (run_ops [add renderer3d] bare)
  = (Normal tt, run_ops [add renderer3d] bare).
Proof.
  destruct instanceof_lookup_identity_registration
    as (_ & Hinst & Hget & Hadd & Hidx & Hrm).
  split; [|split; [|split; [|split]]].
  - exact (Hinst 21 Renderer renderer3d eq_refl).
  - exact (Hget 21 Renderer renderer3d [renderer]
             (run_ops [add renderer3d; add renderer] bare) eq_refl eq_refl).
  - apply (Hadd 21 renderer renderer3d None (run_ops [add renderer] bare));
      [reflexivity|reflexivity|intros e; discriminate|reflexivity].
  - exact (Hidx 21 Renderer renderer3d (run_ops [add renderer3d; add renderer] bare) 0
             eq_refl eq_refl).
  - exact (Hrm 21 Renderer renderer3d (run_ops [add renderer3d] bare)
             eq_refl eq_refl).
Defined.

(** * Loading scenes *)

(** C8. Without a scene [loadScene] does nothing.  In SINGLE mode (the
    default) it sets the primary scene and leaves the secondary scenes as
    they are; in MULTI_CANVAS mode it appends the scene to the secondary
    scenes and leaves the primary scene as it is.  In both modes the only
    other effect is one [sceneChanged] event with the scene, the mode and
    the parameters: no scene is destroyed. *)
Theorem loadScene_modes :
  (∀ mode params w, loadScene (mkLoadSceneParams None mode params) w = (Normal tt, w)) ∧
  (∀ scene mode params w,
     mode = None ∨ mode = Some SINGLE →
     let r := loadScene (mkLoadSceneParams (Some scene) mode params) w in
     r = (Normal tt,
          add_log [Emit "sceneChanged"
                        (mkSceneChanged scene SINGLE (default [] params))]
            (set_scene (Some scene) w)) ∧
     _scene r.2 = Some scene ∧
     multiScenes r.2 = multiScenes w ∧
     log r.2 = log w ++ [Emit "sceneChanged"
                              (mkSceneChanged scene SINGLE (default [] params))]) ∧
  (∀ scene params w ms,
     multiScenes w = Some ms →
     let r := loadScene (mkLoadSceneParams (Some scene) (Some MULTI_CANVAS) params) w in
     r = (Normal tt,
          add_log [Emit "sceneChanged"
                        (mkSceneChanged scene MULTI_CANVAS (default [] params))]
            (set_multiScenes (Some (ms ++ [scene])) w)) ∧
     _scene r.2 = _scene w ∧
     multiScenes r.2 = Some (ms ++ [scene]) ∧
     log r.2 = log w ++ [Emit "sceneChanged"
                              (mkSceneChanged scene MULTI_CANVAS (default [] params))]).
Proof.
  split_and!.
  - reflexivity.
  - intros scene mode params w [->| ->]; cbv zeta; split_and!; reflexivity.
  - intros scene params w ms Hm. cbv zeta.
    assert (loadScene (mkLoadSceneParams (Some scene) (Some MULTI_CANVAS) params) w
            = (Normal tt,
               add_log [Emit "sceneChanged"
                          (mkSceneChanged scene MULTI_CANVAS (default [] params))]
                 (set_multiScenes (Some (ms ++ [scene])) w))) as ->.
    { cbv beta iota zeta delta
        [loadScene from_option id ls_scene ls_mode ls_params bind get].
      rewrite Hm. reflexivity. }
    split_and!; reflexivity.
Qed.

Lemma loadScene_modes_witness :
  loadScene (mkLoadSceneParams (Some sceneA) None None) bare
  = (Normal tt,
     add_log [Emit "sceneChanged" (mkSceneChanged sceneA SINGLE [])]
       (set_scene (Some sceneA) bare)) ∧
  multiScenes
    (loadScene (mkLoadSceneParams (Some sceneB) (Some MULTI_CANVAS) None)
       with_scene).2 = Some [sceneB] ∧
  _scene
    (loadScene (mkLoadSceneParams (Some sceneB) (Some MULTI_CANVAS) None)
       with_scene).2 = Some sceneA.
Proof.
  destruct loadScene_modes as (_ & Hsingle & Hmulti).
  destruct (Hsingle sceneA None None bare (or_introl eq_refl)) as (H1 & _).
  destruct (Hmulti sceneB None with_scene [] eq_refl) as (_ & H2 & H3 & _).
  split_and!; [exact H1|exact H3|exact H2].
Defined.

(** * Tearing the game down *)

Lemma settled_refl w : settled w w.
Proof. by split. Qed.

Lemma settled_trans a b c : settled a b → settled b c → settled a c.
Proof. intros [H1 H2] [H3 H4]. split; auto. Qed.

Ltac settled_leaf :=
  idtac;
  lazymatch goal with
  | |- preserves _ (modify _) =>
      apply preserves_modify; intros ?; split; intros H;
      first [exact H | reflexivity]
  | |- preserves _ (emit_log _) => unfold emit_log
  | |- preserves _ (call _ _ _) => unfold call
  | |- preserves _ (triggerStart _) => unfold triggerStart
  | |- _ => progress (unfold_plumbing; unfold addSystem, removeSystem)
  end.

Lemma settled_pause : preserves settled pause.
Proof. repeat preserves_step settled_refl settled_trans settled_leaf. Qed.

Lemma settled_scene_destroy : preserves settled scene_destroy.
Proof. repeat preserves_step settled_refl settled_trans settled_leaf. Qed.

Lemma settled_destroySystems : preserves settled destroySystems.
Proof. repeat preserves_step settled_refl settled_trans settled_leaf. Qed.

Lemma settled_after_set_playing :
  preserves settled (ticker_pause ;; triggerPause).
Proof. repeat preserves_step settled_refl settled_trans settled_leaf. Qed.

(** When [pause] returns the game is not playing. *)
Lemma pause_returns_paused w w' :
  pause w = (Normal tt, w') → playing w' = false.
Proof.
  unfold pause, bind at 1, get. destruct (playing w) eqn:Hp; cbn [negb].
  - unfold bind at 1, modify. intros H.
    pose proof (settled_after_set_playing (set_playing false w)) as [_ Hs].
    rewrite H in Hs. by apply Hs.
  - intros [= <-]. done.
Qed.

(** C6, as the code has it.  After a [destroy] that returned, the ticker,
    the primary scene, the canvas and the secondary scenes are absent, the
    registry is empty and the game is paused.  A second [destroy] changes
    none of this, but it does not return: reading [destroy] of the absent
    scene throws a [TypeError]. *)
Theorem destroy_twice_throws w w' :
  destroy w = (Normal tt, w') →
  ticker w' = None ∧ _scene w' = None ∧ canvas w' = None ∧
  multiScenes w' = None ∧ systems w' = [] ∧ playing w' = false ∧
  destroy w'
  = (Throw (TypeError "Cannot read properties of null (reading 'destroy')"), w').
Proof.
  unfold destroy at 1. unfold bind at 1, removeAllListeners, modify.
  unfold bind at 1.
  pose proof (settled_pause (set_listeners [] w)) as [Hl1 _].
  destruct (pause (set_listeners [] w)) as [[[]|e] w1] eqn:Hpause; [|done].
  apply pause_returns_paused in Hpause. cbn [snd listeners set_listeners] in Hl1.
  specialize (Hl1 eq_refl).
  unfold bind at 1.
  pose proof (settled_scene_destroy w1) as [Hl2 Hp2].
  destruct (scene_destroy w1) as [[[]|e] w2]; [|done]. cbn [snd] in Hl2, Hp2.
  unfold bind at 1.
  pose proof (settled_destroySystems w2) as [Hl3 Hp3].
  pose proof (destroySystems_returns_empty w2) as Hs3.
  destruct (destroySystems w2) as [[[]|e] w3]; [|done]. cbn [fst snd] in Hl3, Hp3, Hs3.
  unfold bind, modify. intros [= <-].
  specialize (Hs3 eq_refl). specialize (Hl3 (Hl2 Hl1)). specialize (Hp3 (Hp2 Hpause)).
  destruct w3 as [sc cv pl st ms tk sy ls os og lg]. cbn in Hs3, Hl3, Hp3. subst.
  split_and!; reflexivity.
Qed.

(** C6 fails on the code: the second [destroy] throws. *)
Lemma destroy_second_call_throws :
  (destroy with_scene).1 = Normal tt ∧
  (destroy (destroy with_scene).2).1
  = Throw (TypeError "Cannot read properties of null (reading 'destroy')").
Proof. split; reflexivity. Qed.

Lemma destroy_twice_throws_witness :
  destroy with_scene = (Normal tt, (destroy with_scene).2) ∧
  multiScenes (destroy with_scene).2 = None ∧
  destroy (destroy with_scene).2
  = (Throw (TypeError "Cannot read properties of null (reading 'destroy')"),
     (destroy with_scene).2).
Proof.
  assert (H : destroy with_scene = (Normal tt, (destroy with_scene).2))
    by reflexivity.
  destruct (destroy_twice_throws with_scene _ H) as (_ & _ & _ & Hm & _ & _ & Hd).
  split_and!; [exact H|exact Hm|exact Hd].
Defined.

(** * The frame callback on sample games *)


Lemma tick_without_primary_scene_witness :
  _scene secondary_only = None ∧
  ∃ su sl : list Event,
    tick 0 secondary_only = systems_dispatch secondary_only ∧
    (tick 0 secondary_only).1 = Normal tt ∧
    log (tick 0 secondary_only).2 = log secondary_only ++ su ++ sl ∧
    (∀ h c, Call h c ∈ su ++ sl → c ∈ systems secondary_only) ∧
    (∀ s, s ∈ systems secondary_only → update s ≠ Absent → Call Hupdate s ∈ su) ∧
    (∀ s, s ∈ systems secondary_only → lateUpdate s ≠ Absent →
          Call HlateUpdate s ∈ sl) ∧
    (∀ s, s ∈ systems secondary_only → is_unit s = true →
          oid s ∈ obj_started (tick 0 secondary_only).2) ∧
    (∀ c, (∀ s, s ∈ systems secondary_only → oid s ≠ oid c) →
          (oid c ∈ obj_started (tick 0 secondary_only).2
           ↔ oid c ∈ obj_started secondary_only)).
Proof.
  split; [reflexivity|]. exact (tick_without_primary_scene 0 secondary_only eq_refl).
Defined.


(** * The run state *)

Lemma same_refl {A} (f : World → A) w : same f w w.
Proof. done. Qed.

Lemma same_trans {A} (f : World → A) a b c : same f a b → same f b c → same f a c.
Proof. unfold same. congruence. Qed.

(** The primitives that leave a field alone: a [modify] that touches the
    field is not accepted. *)
Ltac same_leaf :=
  idtac;
  lazymatch goal with
  | |- preserves _ (modify _) => apply preserves_modify; intros ?; reflexivity
  | |- preserves _ (emit_log _) => unfold emit_log
  | |- preserves _ (call _ _ _) => unfold call
  | |- preserves _ (triggerStart _) => unfold triggerStart
  | |- _ => progress (unfold_plumbing; unfold addSystem, removeSystem)
  end.

Ltac same_field := repeat preserves_step same_refl same_trans same_leaf.

Lemma start_returns_playing w w' : start w = (Normal tt, w') → playing w' = true.
Proof.
  unfold start, bind at 1, get. destruct (playing w) eqn:Hp.
  - by intros [= <-].
  - unfold bind at 1. destruct (ticker_start w) as [[[]|e] w1]; [|done].
    unfold bind, modify. by intros [= <-].
Qed.

Lemma resume_returns_playing w w' : resume w = (Normal tt, w') → playing w' = true.
Proof.
  unfold resume, bind at 1, get. destruct (playing w) eqn:Hp.
  - by intros [= <-].
  - unfold bind at 1. destruct (ticker_start w) as [[[]|e] w1]; [|done].
    unfold bind at 1. destruct (triggerResume w1) as [[[]|e] w2]; [|done].
    unfold modify. by intros [= <-].
Qed.

(** X1. Each of [start], [pause] and [resume], once it has returned, is a
    no-op when called again: nothing is swept or started twice. *)
Theorem run_state_calls_idempotent :
  (∀ w w', start w = (Normal tt, w') → start w' = (Normal tt, w')) ∧
  (∀ w w', pause w = (Normal tt, w') → pause w' = (Normal tt, w')) ∧
  (∀ w w', resume w = (Normal tt, w') → resume w' = (Normal tt, w')).
Proof.
  split_and!; intros w w' H.
  - apply start_returns_playing in H. unfold start, bind, get. by rewrite H.
  - apply pause_returns_paused in H. unfold pause, bind, get. by rewrite H.
  - apply resume_returns_playing in H. unfold resume, bind, get. by rewrite H.
Qed.

Lemma run_state_calls_idempotent_witness :
  start (start with_scene).2 = (Normal tt, (start with_scene).2) ∧
  pause (pause (start with_scene).2).2 = (Normal tt, (pause (start with_scene).2).2) ∧
  resume (resume with_scene).2 = (Normal tt, (resume with_scene).2).
Proof.
  destruct run_state_calls_idempotent as (Hs & Hp & Hr). split_and!.
  - apply (Hs with_scene). vm_compute. reflexivity.
  - apply (Hp (start with_scene).2). vm_compute. reflexivity.
  - apply (Hr with_scene). vm_compute. reflexivity.
Defined.

(** X2. On a playing game, [pause] followed by [resume] brings the game
    back to playing with a running ticker.  In between the log receives, in
    this order, the ticker's pause, the [onPause] sweep, the ticker's start
    and the [onResume] sweep; the registry, the scenes, the started flags
    and [started] are as before. *)
Theorem pause_then_resume w t ms :
  playing w = true → ticker w = Some t → multiScenes w = Some ms →
  (pause w).1 = Normal tt ∧
  (resume (pause w).2).1 = Normal tt ∧
  playing (pause w).2 = false ∧
  ticker (pause w).2 = Some (ticker_running false t) ∧
  let w' := (resume (pause w).2).2 in
  playing w' = true ∧
  ticker w' = Some (ticker_running true t) ∧
  systems w' = systems w ∧ _scene w' = _scene w ∧
  multiScenes w' = multiScenes w ∧ obj_started w' = obj_started w ∧
  started w' = started w ∧
  log w'
  = log w
    ++ [TickerPause] ++ sweep_trace HonPause onPause system_onPause_msg ms w
    ++ [TickerStart] ++ sweep_trace HonResume onResume system_onResume_msg ms w.
Proof.
  intros Hp Ht Hm. rewrite (pause_spec w t ms Ht Hm), Hp. cbn [fst snd].
  rewrite (resume_spec _ (ticker_running false t) ms) by done.
  cbn [playing add_log set_log set_ticker set_playing fst snd].
  split_and!; try done.
  unfold sweep_trace. world_fields. rewrite <- !app_assoc. cbn [app].
  by rewrite <- ?app_assoc.
Qed.

Lemma pause_then_resume_witness :
  playing (start with_scene).2 = true ∧
  (resume (pause (start with_scene).2).2).1 = Normal tt ∧
  playing (resume (pause (start with_scene).2).2).2 = true.
Proof.
  destruct (pause_then_resume (start with_scene).2
              (mkTicker false 120 true 1) [] eq_refl eq_refl eq_refl)
    as (_ & H2 & _ & _ & H5 & _).
  split_and!; [reflexivity|exact H2|exact H5].
Defined.

Lemma started_sticky_refl w : started_sticky w w.
Proof. by intros H. Qed.

Lemma started_sticky_trans a b c :
  started_sticky a b → started_sticky b c → started_sticky a c.
Proof. intros Hab Hbc H. by apply Hbc, Hab. Qed.

Ltac sticky_leaf :=
  idtac;
  lazymatch goal with
  | |- preserves _ (modify _) =>
      apply preserves_modify; intros ? H; first [exact H | reflexivity]
  | |- preserves _ (emit_log _) => unfold emit_log
  | |- preserves _ (call _ _ _) => unfold call
  | |- preserves _ (triggerStart _) => unfold triggerStart
  | |- _ => progress (unfold_plumbing; unfold addSystem, removeSystem)
  end.

Lemma started_sticky_run_op op w : started_sticky w (run_op op w).
Proof.
  destruct op; cbn [run_op];
    match goal with
    | |- started_sticky _ (?m _).2 => revert w; change (preserves started_sticky m)
    end;
    repeat preserves_step started_sticky_refl started_sticky_trans sticky_leaf.
Qed.

Lemma resume_same_started : preserves (same started) resume.
Proof. same_field. Qed.

(** X3. The flag [started] of the game is set by [start] and by nothing
    else, and nothing clears it: it stays true over any sequence of calls
    and frames.  [resume] leaves it as it is, so on a game that [resume]
    set playing before any [start], a later [start] is a no-op and
    [started] keeps its old value. *)
Theorem game_started_is_sticky :
  (∀ ops w, started w = true → started (run_ops ops w) = true) ∧
  (∀ w w', playing w = false → start w = (Normal tt, w') → started w' = true) ∧
  (∀ w, started (resume w).2 = started w) ∧
  (∀ w w', resume w = (Normal tt, w') →
           start w' = (Normal tt, w') ∧ started w' = started w).
Proof.
  split_and!.
  - intros ops. induction ops as [|op ops IH]; intros w Hw; [done|].
    cbn. by apply IH, started_sticky_run_op.
  - intros w w' Hp. unfold start, bind at 1, get. rewrite Hp.
    unfold bind at 1. destruct (ticker_start w) as [[[]|e] w1]; [|done].
    unfold bind, modify. by intros [= <-].
  - intros w. apply resume_same_started.
  - intros w w' H. split.
    + apply resume_returns_playing in H. unfold start, bind, get. by rewrite H.
    + pose proof (resume_same_started w) as Hs. by rewrite H in Hs.
Qed.

Lemma game_started_is_sticky_witness :
  started (run_ops [OpPause; OpTick 0; OpResume; OpDestroySystems]
             (start with_scene).2) = true ∧
  started (start with_scene).2 = true ∧
  (start (resume with_scene).2 = (Normal tt, (resume with_scene).2) ∧
   started (resume with_scene).2 = started with_scene).
Proof.
  destruct game_started_is_sticky as (Hops & Hstart & _ & Hres).
  split; [|split].
  - apply Hops. vm_compute. reflexivity.
  - apply (Hstart with_scene); vm_compute; reflexivity.
  - apply (Hres with_scene). vm_compute. reflexivity.
Defined.

(** ** A playing game has a running ticker *)





Lemma pause_always_paused w : playing (pause w).2 = false.
Proof.
  unfold pause, bind at 1, get. destruct (playing w) eqn:Hp; cbn [negb]; [|done].
  unfold bind at 1, modify.
  pose proof (settled_after_set_playing (set_playing false w)) as [_ Hs].
  by apply Hs.
Qed.

Lemma destroy_unfold w :
  destroy w = (pause ;; teardown) (set_listeners [] w).
Proof. reflexivity. Qed.

Lemma settled_teardown : preserves settled teardown.
Proof.
  unfold teardown. repeat preserves_step settled_refl settled_trans settled_leaf.
Qed.

Lemma destroy_always_settled w :
  listeners (destroy w).2 = [] ∧ playing (destroy w).2 = false.
Proof.
  rewrite destroy_unfold. unfold bind.
  pose proof (settled_pause (set_listeners [] w)) as [Hl _].
  pose proof (pause_always_paused (set_listeners [] w)) as Hp.
  destruct (pause (set_listeners [] w)) as [[[]|e] w1]; cbn [snd] in *.
  - pose proof (settled_teardown w1) as [Hl' Hp'].
    split; [by apply Hl', Hl|by apply Hp'].
  - split; [by apply Hl|done].
Qed.











(** X5. However [destroy] completes, also when it throws half way, the
    game has no listeners left and is not playing afterwards. *)
Theorem destroy_always_detaches_and_pauses w :
  listeners (destroy w).2 = [] ∧ playing (destroy w).2 = false.
Proof. apply destroy_always_settled. Qed.

(** * The pause and resume sweeps *)

Lemma hook_pass_trace_hook_phase h sel (l : list Item) :
  Forall (hook_phase_of h (map snd l)) (hook_pass_trace h sel l).
Proof.
  induction l as [|it l IH]; cbn; [apply Forall_nil_2|].
  rewrite Forall_app. split.
  - destruct (sel it.2); cbn;
      repeat (apply Forall_cons_2; [cbn; try split; try done; left|]);
      apply Forall_nil_2.
  - eapply Forall_impl; [apply IH|]. intros []; cbn; try done.
    intros [? ?]. split; [done|]. by right.
Qed.

Lemma hook_pass_trace_reports h sel (l : list Item) it e :
  it ∈ l → sel it.2 = Throws e → ConsoleError it.1 e ∈ hook_pass_trace h sel l.
Proof.
  induction l as [|it' l IH]; intros Hin Hs.
  - by apply elem_of_nil in Hin.
  - cbn. rewrite elem_of_app. apply elem_of_cons in Hin as [->|Hin].
    + left. rewrite Hs. cbn. right. left.
    + right. by apply IH.
Qed.

Lemma elem_of_component_items msg gos go c :
  go ∈ gos → c ∈ components go → (msg go c, c) ∈ component_items msg gos.
Proof.
  intros Hgo Hc. unfold component_items. apply list_elem_of_In, in_flat_map.
  exists go. split; [by apply list_elem_of_In|].
  apply list_elem_of_In. apply (list_elem_of_fmap_2 (fun c => (msg go c, c))), Hc.
Qed.

(** X6. On a game whose secondary-scene list exists, [triggerPause] returns
    and changes nothing but the log, which receives first the [onPause]
    calls of the components of all game objects, then those of the systems;
    no other hook is called, every unit that has the hook gets it called,
    and a failure is reported and does not stop the sweep.  A component
    whose [onPause] throws is reported with the text "onResume error", a
    system with ", onPause error".  [triggerResume] does the same with
    [onResume]. *)
Theorem pause_and_resume_sweeps w ms :
  multiScenes w = Some ms →
  let gos := all_gameObjects (_scene w) ms in
  let comps := flat_map components gos in
  ∃ cp sp cr sr : list Event,
    triggerPause w = (Normal tt, add_log (cp ++ sp) w) ∧
    triggerResume w = (Normal tt, add_log (cr ++ sr) w) ∧
    Forall (hook_phase_of HonPause comps) cp ∧
    Forall (hook_phase_of HonPause (systems w)) sp ∧
    Forall (hook_phase_of HonResume comps) cr ∧
    Forall (hook_phase_of HonResume (systems w)) sr ∧
    (∀ c, c ∈ comps → onPause c ≠ Absent → Call HonPause c ∈ cp) ∧
    (∀ s, s ∈ systems w → onPause s ≠ Absent → Call HonPause s ∈ sp) ∧
    (∀ c, c ∈ comps → onResume c ≠ Absent → Call HonResume c ∈ cr) ∧
    (∀ s, s ∈ systems w → onResume s ≠ Absent → Call HonResume s ∈ sr) ∧
    (∀ go c e, go ∈ gos → c ∈ components go → onPause c = Throws e →
       ConsoleError ("gameObject: " +:+ go_name go +:+ ", " +:+ name c
                     +:+ ", onResume error") e ∈ cp) ∧
    (∀ s e, s ∈ systems w → onPause s = Throws e →
       ConsoleError (systemName s +:+ ", onPause error") e ∈ sp).
Proof.
  intros Hm gos comps.
  set (ci := component_items pause_resume_msg gos).
  exists (hook_pass_trace HonPause onPause ci),
         (hook_pass_trace HonPause onPause (system_items system_onPause_msg (systems w))),
         (hook_pass_trace HonResume onResume ci),
         (hook_pass_trace HonResume onResume
            (system_items system_onResume_msg (systems w))).
  assert (Hci : map snd ci = comps) by apply component_items_units.
  assert (Hsi : ∀ msg, map snd (system_items msg (systems w)) = systems w)
    by (intros; apply system_items_units).
  assert (Hcin : ∀ c, c ∈ comps → ∃ it, it ∈ ci ∧ it.2 = c).
  { intros c Hc. rewrite <- Hci in Hc. by apply elem_of_items_of_units. }
  assert (Hsin : ∀ msg s, s ∈ systems w → (msg s, s) ∈ system_items msg (systems w)).
  { intros msg s Hs. unfold system_items. apply list_elem_of_fmap. eauto. }
  split_and!.
  - apply (triggerPause_spec w ms Hm).
  - apply (triggerResume_spec w ms Hm).
  - rewrite <- Hci. apply hook_pass_trace_hook_phase.
  - rewrite <- (Hsi system_onPause_msg) at 1. apply hook_pass_trace_hook_phase.
  - rewrite <- Hci. apply hook_pass_trace_hook_phase.
  - rewrite <- (Hsi system_onResume_msg) at 1. apply hook_pass_trace_hook_phase.
  - intros c Hc Hh. destruct (Hcin c Hc) as (it & Hit & <-).
    by apply hook_pass_trace_complete.
  - intros s Hs Hh.
    by apply (hook_pass_trace_complete HonPause onPause _ (system_onPause_msg s, s));
      [apply Hsin|].
  - intros c Hc Hh. destruct (Hcin c Hc) as (it & Hit & <-).
    by apply hook_pass_trace_complete.
  - intros s Hs Hh.
    by apply (hook_pass_trace_complete HonResume onResume _
                (system_onResume_msg s, s)); [apply Hsin|].
  - intros go c e Hgo Hc He.
    apply (hook_pass_trace_reports HonPause onPause ci (pause_resume_msg go c, c) e);
      [|done].
    by apply elem_of_component_items.
  - intros s e Hs He.
    apply (hook_pass_trace_reports HonPause onPause _ (system_onPause_msg s, s) e);
      [|done].
    by apply Hsin.
Qed.

Lemma pause_and_resume_sweeps_witness :
  multiScenes with_scene = Some [] ∧
  (triggerPause with_scene).1 = Normal tt ∧
  (triggerResume with_scene).1 = Normal tt.
Proof.
  destruct (pause_and_resume_sweeps with_scene [] eq_refl)
    as (cp & sp & cr & sr & Hp & Hr & _).
  split_and!; [reflexivity|by rewrite Hp|by rewrite Hr].
Defined.

(** * The population of game objects *)

Lemma fold_left_app_concat {A} (l : list (list A)) (a : list A) :
  fold_left (fun acc x => acc ++ x) l a = a ++ concat l.
Proof.
  revert a. induction l as [|x l IH]; intros a; cbn.
  - by rewrite app_nil_r.
  - by rewrite IH, app_assoc.
Qed.

Lemma all_gameObjects_concat main ms :
  all_gameObjects main ms
  = match main with Some s => gameObjects s | None => [] end
    ++ concat (map gameObjects ms).
Proof. unfold all_gameObjects. by rewrite fold_left_app_concat. Qed.

(** X7. The getter [gameObjects] never changes the game.  It throws a
    [TypeError] when the secondary-scene list is null, also when a primary
    scene is present; otherwise it returns the game objects of the primary
    scene, if there is one, followed by those of the secondary scenes in the
    order the scenes were loaded. *)
Theorem gameObjects_primary_then_secondary :
  (∀ w, (getAllGameObjects w).2 = w) ∧
  (∀ w, multiScenes w = None →
        (getAllGameObjects w).1
        = Throw (TypeError "Cannot read properties of null (reading 'map')")) ∧
  (∀ w ms, multiScenes w = Some ms →
           (getAllGameObjects w).1
           = Normal (primary_gameObjects w ++ concat (map gameObjects ms))).
Proof.
  split_and!.
  - intros w. rewrite getAllGameObjects_spec. by destruct (multiScenes w).
  - intros w Hm. by rewrite getAllGameObjects_spec, Hm.
  - intros w ms Hm. rewrite getAllGameObjects_spec, Hm. cbn [fst].
    by rewrite all_gameObjects_concat.
Qed.

Lemma gameObjects_primary_then_secondary_witness :
  (getAllGameObjects (destroy with_scene).2).1
  = Throw (TypeError "Cannot read properties of null (reading 'map')") ∧
  (getAllGameObjects secondary_only).1 = Normal [hero].
Proof.
  destruct gameObjects_primary_then_secondary as (_ & Hnull & Hlist). split.
  - apply Hnull. vm_compute. reflexivity.
  - apply (Hlist secondary_only [sceneA]). vm_compute. reflexivity.
Defined.

(** X8. Loading a scene and reading [gameObjects]: after a MULTI_CANVAS
    load the population is the previous one followed by the game objects of
    the new scene; after a SINGLE load the game objects of the new scene
    take the place of the previous primary scene's, in front of the
    secondary scenes' ones, which stay. *)
Theorem loadScene_then_gameObjects w ms scene params :
  multiScenes w = Some ms →
  (getAllGameObjects
     (loadScene (mkLoadSceneParams (Some scene) (Some MULTI_CANVAS) params) w).2).1
  = Normal (primary_gameObjects w ++ concat (map gameObjects ms)
            ++ gameObjects scene) ∧
  (getAllGameObjects
     (loadScene (mkLoadSceneParams (Some scene) (Some SINGLE) params) w).2).1
  = Normal (gameObjects scene ++ concat (map gameObjects ms)) ∧
  (getAllGameObjects
     (loadScene (mkLoadSceneParams (Some scene) None params) w).2).1
  = Normal (gameObjects scene ++ concat (map gameObjects ms)).
Proof.
  intros Hm.
  assert (Hmulti :
    loadScene (mkLoadSceneParams (Some scene) (Some MULTI_CANVAS) params) w
    = (Normal tt,
       add_log [Emit "sceneChanged"
                  (mkSceneChanged scene MULTI_CANVAS (default [] params))]
         (set_multiScenes (Some (ms ++ [scene])) w))).
  { cbv beta iota zeta delta
      [loadScene from_option id ls_scene ls_mode ls_params bind get].
    rewrite Hm. reflexivity. }
  assert (Hget : ∀ w' ms',
    multiScenes w' = Some ms' →
    (getAllGameObjects w').1
    = Normal (primary_gameObjects w' ++ concat (map gameObjects ms'))).
  { intros w' ms' Hm'. rewrite getAllGameObjects_spec, Hm'. cbn [fst].
    by rewrite all_gameObjects_concat. }
  split_and!.
  - rewrite Hmulti. cbn [snd].
    match goal with
    | |- (getAllGameObjects ?w').1 = _ =>
        rewrite (Hget w' (ms ++ [scene]) eq_refl)
    end.
    rewrite map_app, concat_app. cbn [map concat]. rewrite app_nil_r.
    reflexivity.
  - exact (Hget (add_log _ (set_scene (Some scene) w)) ms Hm).
  - exact (Hget (add_log _ (set_scene (Some scene) w)) ms Hm).
Qed.

Lemma loadScene_then_gameObjects_witness :
  multiScenes with_scene = Some [] ∧
  (getAllGameObjects
     (loadScene (mkLoadSceneParams (Some sceneA) (Some MULTI_CANVAS) None)
        with_scene).2).1
  = Normal [hero; hero].
Proof.
  destruct (loadScene_then_gameObjects with_scene [] sceneA None eq_refl)
    as (H & _).
  split; [reflexivity|exact H].
Defined.

(** * Registering, looking up, removing *)

Lemma findIndex_from_at {A} (p : A → bool) (l : list A) (i : Z) k x :
  l !! k = Some x → p x = true →
  (∀ j y, j < k → l !! j = Some y → p y = false) →
  findIndex_from p l i = (i + Z.of_nat k)%Z.
Proof.
  revert i k. induction l as [|y l IH]; intros i k Hk Hx Hbefore; [done|].
  destruct k as [|k]; cbn in Hk |- *.
  - injection Hk as ->. rewrite Hx. lia.
  - rewrite (Hbefore 0 y) by (done || lia).
    rewrite (IH (i + 1)%Z k Hk Hx); [lia|].
    intros j z Hj Hz. apply (Hbefore (S j) z); [lia|done].
Qed.

Lemma findIndex_at {A} (p : A → bool) (l : list A) k x :
  l !! k = Some x → p x = true →
  (∀ j y, j < k → l !! j = Some y → p y = false) →
  findIndex p l = Z.of_nat k.
Proof.
  intros Hk Hx Hb. unfold findIndex. by rewrite (findIndex_from_at p l 0 k x).
Qed.

Lemma findIndex_last {A} (p : A → bool) (l : list A) x :
  Forall (fun y => p y = false) l → p x = true →
  findIndex p (l ++ [x]) = Z.of_nat (length l).
Proof.
  intros Hall Hx. apply (findIndex_at p _ _ x).
  - by rewrite lookup_app_r, Nat.sub_diag.
  - done.
  - intros j y Hj Hy. rewrite lookup_app_l in Hy by done.
    rewrite Forall_forall in Hall. apply Hall. by eapply list_elem_of_lookup_2.
Qed.

Lemma find_first {A} (p : A → bool) (l : list A) x :
  find p l = Some x →
  ∃ k, l !! k = Some x ∧ p x = true ∧
       ∀ j y, j < k → l !! j = Some y → p y = false.
Proof.
  induction l as [|y l IH]; [done|]. cbn. destruct (p y) eqn:Hy.
  - intros [= ->]. exists 0. split_and!; [done|done|]. intros j z Hj. lia.
  - intros Hf. destruct (IH Hf) as (k & Hk & Hx & Hb). exists (S k).
    split_and!; [done|done|]. intros [|j] z Hj Hz.
    + cbn in Hz. by injection Hz as <-.
    + apply (Hb j z); [lia|done].
Qed.

Lemma find_none_all {A} (p : A → bool) (l : list A) :
  find p l = None ↔ Forall (fun y => p y = false) l.
Proof.
  induction l as [|y l IH]; cbn.
  - split; [intros _; apply Forall_nil_2|done].
  - destruct (p y) eqn:Hy.
    + split; [done|]. intros H. apply Forall_cons in H as [H _]. congruence.
    + rewrite IH. split.
      * intros H. by apply Forall_cons_2.
      * intros H. by apply Forall_cons in H as [_ H].
Qed.

Lemma find_last {A} (p : A → bool) (l : list A) x :
  Forall (fun y => p y = false) l → p x = true → find p (l ++ [x]) = Some x.
Proof.
  intros Hall Hx. induction l as [|y l IH]; cbn.
  - by rewrite Hx.
  - apply Forall_cons in Hall as [Hy Hall]. rewrite Hy. by apply IH.
Qed.

Lemma hasTheSystem_None_all system l :
  hasTheSystem system l = None →
  Forall (fun x => bool_decide (constructor x = constructor system) = false) l.
Proof. intros H. by apply find_none_all. Qed.

Lemma getSystem_spec S w :
  getSystem S w = (Normal (find (get_matches S) (systems w)), w).
Proof. by destruct S. Qed.

(** X9. Registering a system and then removing it by its constructor gives
    the registry back as it was, provided [init] and [destroy] do not
    throw: the new entry is the only one of its type, so the removal
    resolves to it.  Removing it by instance does the same when no earlier
    entry is the same object. *)
Theorem addSystem_then_removeSystem S obj w system :
  resolve_system S obj = Some system →
  hasTheSystem system (systems w) = None →
  (∀ e, init system ≠ Throws e) →
  (∀ e, destroy_ system ≠ Throws e) →
  let w1 := (addSystem S obj w).2 in
  ((removeSystem (RmClass (constructor system)) w1).1 = Normal tt ∧
   systems (removeSystem (RmClass (constructor system)) w1).2 = systems w) ∧
  (instanceof system System = true →
   (∀ x, x ∈ systems w → oid x ≠ oid system) →
   (removeSystem (RmInstance system) w1).1 = Normal tt ∧
   systems (removeSystem (RmInstance system) w1).2 = systems w).
Proof.
  intros Hr Hh Hinit Hdestroy w1. subst w1.
  rewrite (addSystem_accepted S obj w system Hr Hh Hinit). cbn [snd].
  assert (Hlast : systems (registered system w) !! length (systems w) = Some system).
  { unfold registered. cbn [systems set_systems].
    change ((systems w ++ [system]) !! length (systems w) = Some system).
    by rewrite lookup_app_r, Nat.sub_diag. }
  assert (Hdel : delete (length (systems w)) (systems (registered system w))
                 = systems w).
  { unfold registered. cbn [systems set_systems].
    change (delete (length (systems w)) (systems w ++ [system]) = systems w).
    rewrite delete_middle. apply app_nil_r. }
  assert (Hgo : ∀ arg,
    resolve_index arg (systems (registered system w))
    = Z.of_nat (length (systems w)) →
    (removeSystem arg (registered system w)).1 = Normal tt ∧
    systems (removeSystem arg (registered system w)).2 = systems w).
  { intros arg Hi. rewrite (removeSystem_found arg _ _ system Hi Hlast).
    destruct (destroy_ system) eqn:Hd;
      [split; [done|exact Hdel]..|by destruct (Hdestroy e)]. }
  split.
  - apply Hgo. unfold resolve_index, registered. cbn [systems set_systems].
    change (findIndex (fun s => bool_decide (constructor s = constructor system))
              (systems w ++ [system]) = Z.of_nat (length (systems w))).
    apply findIndex_last; [by apply hasTheSystem_None_all|].
    by apply bool_decide_eq_true_2.
  - intros Hs Hoid. apply Hgo. unfold resolve_index. rewrite Hs.
    unfold registered. cbn [systems set_systems].
    change (findIndex (fun s => bool_decide (oid s = oid system))
              (systems w ++ [system]) = Z.of_nat (length (systems w))).
    apply findIndex_last; [|by apply bool_decide_eq_true_2].
    apply Forall_forall. intros x Hx. apply bool_decide_eq_false_2. by apply Hoid.
Qed.

Lemma addSystem_then_removeSystem_witness :
  (removeSystem (RmClass Renderer3D)
     (addSystem (AddInstance renderer3d) None three_systems).2).1 = Normal tt ∧
  systems (removeSystem (RmClass Renderer3D)
             (addSystem (AddInstance renderer3d) None three_systems).2).2
  = systems three_systems.
Proof.
  assert (Hi : ∀ e, init renderer3d ≠ Throws e) by (intros e; discriminate).
  assert (Hd : ∀ e, destroy_ renderer3d ≠ Throws e) by (intros e; discriminate).
  exact (proj1 (addSystem_then_removeSystem (AddInstance renderer3d) None
                  three_systems renderer3d eq_refl eq_refl Hi Hd)).
Defined.

(** X10. [getSystem] never changes the game.  What it returns is a
    registered system that passes the test (same name, or instance of the
    constructor) and no entry before it does; it returns nothing exactly
    when no registered system passes the test. *)
Theorem getSystem_first_match :
  (∀ S w, (getSystem S w).2 = w) ∧
  (∀ S w s,
     (getSystem S w).1 = Normal (Some s) →
     ∃ k, systems w !! k = Some s ∧ get_matches S s = true ∧
          ∀ j x, j < k → systems w !! j = Some x → get_matches S x = false) ∧
  (∀ S w,
     (getSystem S w).1 = Normal None
     ↔ ∀ x, x ∈ systems w → get_matches S x = false).
Proof.
  split_and!.
  - intros S w. by rewrite getSystem_spec.
  - intros S w s. rewrite getSystem_spec. cbn [fst]. intros [= H].
    by apply find_first.
  - intros S w. rewrite getSystem_spec. cbn [fst]. rewrite <- Forall_forall.
    rewrite <- find_none_all. split; [by intros [= ->]|by intros ->].
Qed.

Lemma getSystem_first_match_witness :
  (∃ k, systems three_systems !! k = Some audio ∧
        get_matches (GetName "Audio") audio = true ∧
        ∀ j x, j < k → systems three_systems !! j = Some x →
               get_matches (GetName "Audio") x = false) ∧
  (getSystem (GetClass Renderer3D) three_systems).1 = Normal None.
Proof.
  destruct getSystem_first_match as (_ & Hsome & Hnone). split.
  - apply (Hsome (GetName "Audio") three_systems audio). vm_compute. reflexivity.
  - apply Hnone. intros x Hx.
    apply (Forall_forall (fun x => get_matches (GetClass Renderer3D) x = false)
             (systems three_systems)); [|exact Hx].
    repeat (apply Forall_cons_2; [reflexivity|]). apply Forall_nil_2.
Defined.

(** X11. After an accepted registration whose [init] does not throw,
    [getSystem] with the system's constructor returns it when no earlier
    entry is an instance of that constructor, and [getSystem] with its name
    returns it when no earlier entry has that name. *)
Theorem addSystem_then_getSystem S obj w system :
  resolve_system S obj = Some system →
  hasTheSystem system (systems w) = None →
  (∀ e, init system ≠ Throws e) →
  let w1 := (addSystem S obj w).2 in
  ((∀ x, x ∈ systems w → instanceof x (constructor system) = false) →
   getSystem (GetClass (constructor system)) w1 = (Normal (Some system), w1)) ∧
  ((∀ x, x ∈ systems w → name x ≠ name system) →
   getSystem (GetName (name system)) w1 = (Normal (Some system), w1)).
Proof.
  intros Hr Hh Hinit w1. subst w1.
  rewrite (addSystem_accepted S obj w system Hr Hh Hinit). cbn [snd].
  split; intros Hnone; rewrite getSystem_spec; do 2 f_equal;
    unfold registered; cbn [systems set_systems];
    change (systems (set_obj_game _ _)) with (systems w).
  - apply find_last; [|apply extends_refl]. apply Forall_forall. exact Hnone.
  - apply find_last; [|by apply bool_decide_eq_true_2].
    apply Forall_forall. intros x Hx. apply bool_decide_eq_false_2. by apply Hnone.
Qed.

Lemma addSystem_then_getSystem_witness :
  getSystem (GetName "Renderer3D")
    (addSystem (AddInstance renderer3d) None three_systems).2
  = (Normal (Some renderer3d),
     (addSystem (AddInstance renderer3d) None three_systems).2).
Proof.
  assert (Hi : ∀ e, init renderer3d ≠ Throws e) by (intros e; discriminate).
  apply (proj2 (addSystem_then_getSystem (AddInstance renderer3d) None
                  three_systems renderer3d eq_refl eq_refl Hi)).
  intros x Hx.
  apply (Forall_forall (fun x => name x ≠ name renderer3d)
           (systems three_systems)); [|exact Hx].
  repeat (apply Forall_cons_2; [discriminate|]). apply Forall_nil_2.
Defined.

(** X12. When a registered system is the first entry with its name, the
    first with its constructor and the first with its identity, removing by
    name, by constructor and by instance are the same computation: all
    three resolve to its position.  The empty string is the exception: it
    is falsy, so [removeSystem] with that name does nothing, although
    [getSystem] with the empty string does find a system whose name is
    empty. *)
Theorem removeSystem_forms_agree :
  (∀ w k s,
     systems w !! k = Some s →
     instanceof s System = true →
     name s ≠ "" →
     (∀ j x, j < k → systems w !! j = Some x →
             name x ≠ name s ∧ constructor x ≠ constructor s ∧ oid x ≠ oid s) →
     resolve_index (RmInstance s) (systems w) = Z.of_nat k ∧
     removeSystem (RmName (name s)) w = removeSystem (RmInstance s) w ∧
     removeSystem (RmClass (constructor s)) w = removeSystem (RmInstance s) w) ∧
  (∀ w, removeSystem (RmName "") w = (Normal tt, w)) ∧
  (∀ w s rest, systems w = s :: rest → name s = "" →
               (getSystem (GetName "") w).1 = Normal (Some s)).
Proof.
  split_and!.
  - intros w k s Hk Hs Hname Hfirst.
    assert (Hi : resolve_index (RmInstance s) (systems w) = Z.of_nat k).
    { unfold resolve_index. rewrite Hs. apply (findIndex_at _ _ _ s Hk).
      - by apply bool_decide_eq_true_2.
      - intros j x Hj Hx. apply bool_decide_eq_false_2.
        by destruct (Hfirst j x Hj Hx) as (_ & _ & ?). }
    assert (Hn : resolve_index (RmName (name s)) (systems w) = Z.of_nat k).
    { unfold resolve_index. destruct (name s) as [|a n] eqn:Hns; [done|].
      apply (findIndex_at _ _ _ s Hk).
      - by apply bool_decide_eq_true_2.
      - intros j x Hj Hx. apply bool_decide_eq_false_2.
        destruct (Hfirst j x Hj Hx) as (? & _ & _). congruence. }
    assert (Hc : resolve_index (RmClass (constructor s)) (systems w) = Z.of_nat k).
    { unfold resolve_index. apply (findIndex_at _ _ _ s Hk).
      - by apply bool_decide_eq_true_2.
      - intros j x Hj Hx. apply bool_decide_eq_false_2.
        by destruct (Hfirst j x Hj Hx) as (_ & ? & _). }
    split; [exact Hi|].
    by rewrite (removeSystem_found _ w k s Hn Hk), (removeSystem_found _ w k s Hc Hk),
      (removeSystem_found _ w k s Hi Hk).
  - reflexivity.
  - intros w s rest Hsys Hname. rewrite getSystem_spec, Hsys. cbn [fst find get_matches].
    by rewrite bool_decide_eq_true_2.
Qed.

Lemma removeSystem_forms_agree_witness :
  resolve_index (RmInstance audio) (systems three_systems) = 2%Z ∧
  removeSystem (RmName "Audio") three_systems
  = removeSystem (RmInstance audio) three_systems ∧
  removeSystem (RmClass Audio) three_systems
  = removeSystem (RmInstance audio) three_systems.
Proof.
  destruct removeSystem_forms_agree as (H & _).
  apply (H three_systems 2 audio); [reflexivity|reflexivity|discriminate|].
  intros [|[|j]] x Hj Hx.
  - injection Hx as <-. split_and!; discriminate.
  - injection Hx as <-. split_and!; discriminate.
  - lia.
Defined.

(** * Destroying *)

Lemma remove_each_in_order l w :
  systems w = l →
  Forall (fun s => instanceof s System = true) l →
  Forall destroy_returns l →
  (remove_each l w).1 = Normal tt ∧
  systems (remove_each l w).2 = [] ∧
  log (remove_each l w).2 = log w ++ flat_map destroy_call l.
Proof.
  intros Hsys Hinst Hret.
  revert w Hsys. induction l as [|x l IH]; intros w Hsys.
  - cbn. by rewrite app_nil_r.
  - apply Forall_cons in Hinst as [Hx Hinst].
    apply Forall_cons in Hret as [Hrx Hret].
    specialize (IH Hinst Hret).
    unfold remove_each. cbn [for_of]. unfold bind.
    rewrite (removeSystem_found (RmInstance x) w 0 x).
    2:{ rewrite Hsys. by apply resolve_index_head. }
    2:{ by rewrite Hsys. }
    fold (remove_each l). unfold destroy_call at 1. cbn [flat_map].
    destruct (destroy_ x) eqn:Hdx.
    + destruct (IH (set_systems (delete 0 (systems w)) w)) as (H1 & H2 & H3).
      { cbn. by rewrite Hsys. }
      split_and!; [exact H1|exact H2|].
      rewrite H3. reflexivity.
    + destruct (IH (set_systems (delete 0 (systems w)) (add_log [Call Hdestroy x] w)))
        as (H1 & H2 & H3).
      { cbn. by rewrite Hsys. }
      split_and!; [exact H1|exact H2|].
      rewrite H3. cbn [log set_systems add_log set_log]. by rewrite <- app_assoc.
    + by destruct (Hrx e).
Qed.

Lemma destroySystems_in_order w :
  Forall (fun s => instanceof s System = true) (systems w) →
  Forall destroy_returns (systems w) →
  ∃ w', destroySystems w = (Normal tt, w') ∧ systems w' = [] ∧
        log w' = log w ++ flat_map destroy_call (systems w).
Proof.
  intros Hinst Hret. rewrite destroySystems_unfold. unfold bind.
  destruct (remove_each_in_order (systems w) w eq_refl Hinst Hret)
    as (H1 & _ & H3).
  destruct (remove_each (systems w) w) as [[[]|e] w1]; [|done].
  cbn [fst snd] in *. unfold modify. eexists. split_and!; [done|done|exact H3].
Qed.

(** X13. When every registered object is a [System] and no [destroy] hook
    throws, [destroySystems] returns, empties the registry and calls the
    [destroy] hook of each system that has one exactly once, in
    registration order; nothing else is logged. *)
Theorem destroySystems_destroys_in_order w :
  Forall (fun s => instanceof s System = true) (systems w) →
  Forall destroy_returns (systems w) →
  (destroySystems w).1 = Normal tt ∧
  systems (destroySystems w).2 = [] ∧
  log (destroySystems w).2 = log w ++ flat_map destroy_call (systems w).
Proof.
  intros Hinst Hret.
  destruct (destroySystems_in_order w Hinst Hret) as (w' & -> & H2 & H3).
  done.
Qed.

Lemma destroySystems_destroys_in_order_witness :
  (destroySystems with_scene).1 = Normal tt ∧
  systems (destroySystems with_scene).2 = [] ∧
  log (destroySystems with_scene).2 = log with_scene ++ [Call Hdestroy renderer].
Proof.
  apply (destroySystems_destroys_in_order with_scene).
  - repeat (apply Forall_cons_2; [reflexivity|]). apply Forall_nil_2.
  - repeat (apply Forall_cons_2; [intros e; discriminate|]). apply Forall_nil_2.
Defined.

Lemma scene_destroy_spec w :
  scene_destroy w
  = match _scene w with
    | None =>
        (Throw (TypeError "Cannot read properties of null (reading 'destroy')"), w)
    | Some s => (Normal tt, add_log [SceneDestroy s] w)
    end.
Proof. unfold scene_destroy. run_m. by destruct (_scene w). Qed.

(** What [pause] appends to the log of a game that can be paused. *)
Lemma pause_log w t ms :
  ticker w = Some t → multiScenes w = Some ms →
  ∃ w', pause w = (Normal tt, w') ∧
        _scene w' = _scene w ∧ systems w' = systems w ∧
        multiScenes w' = multiScenes w ∧ listeners w' = listeners w ∧
        is_Some (ticker w') ∧
        log w' = log w ++ (if playing w
                           then TickerPause
                                :: sweep_trace HonPause onPause system_onPause_msg ms w
                           else []).
Proof.
  intros Ht Hm. rewrite (pause_spec w t ms Ht Hm). destruct (playing w).
  - eexists. split; [reflexivity|]. split_and!; done.
  - exists w. rewrite app_nil_r. split_and!; done.
Qed.

Lemma teardown_returns w s :
  _scene w = Some s →
  Forall (fun u => instanceof u System = true) (systems w) →
  Forall destroy_returns (systems w) →
  ∃ w', teardown w = (Normal tt, w') ∧
        log w' = log w ++ [SceneDestroy s] ++ flat_map destroy_call (systems w).
Proof.
  intros Hs Hinst Hret.
  destruct (destroySystems_in_order (add_log [SceneDestroy s] w) Hinst Hret)
    as (w2 & Hd & _ & Hl2).
  unfold teardown, bind. rewrite scene_destroy_spec, Hs. cbv beta iota.
  rewrite Hd. unfold modify. eexists. split; [reflexivity|].
  cbn [log set_multiScenes set_canvas set_scene set_ticker]. rewrite Hl2.
  cbn [log systems add_log set_log]. by rewrite <- app_assoc.
Qed.

Lemma teardown_without_scene w :
  _scene w = None →
  teardown w
  = (Throw (TypeError "Cannot read properties of null (reading 'destroy')"), w).
Proof.
  intros Hs. unfold teardown, bind. by rewrite scene_destroy_spec, Hs.
Qed.

(** X14. On a game without a primary scene (and not torn down), [destroy]
    throws a [TypeError] at [this.scene.destroy()]: the listeners are gone
    and the game is paused, but no system is destroyed or removed and the
    ticker and the secondary scenes stay. *)
Theorem destroy_without_scene w t ms :
  _scene w = None → ticker w = Some t → multiScenes w = Some ms →
  (destroy w).1
  = Throw (TypeError "Cannot read properties of null (reading 'destroy')") ∧
  systems (destroy w).2 = systems w ∧
  is_Some (ticker (destroy w).2) ∧
  multiScenes (destroy w).2 = Some ms ∧
  log (destroy w).2
  = log w ++ (if playing w
              then TickerPause :: sweep_trace HonPause onPause system_onPause_msg ms w
              else []).
Proof.
  intros Hs Ht Hm. rewrite destroy_unfold. unfold bind.
  destruct (pause_log (set_listeners [] w) t ms Ht Hm)
    as (w1 & -> & Hs1 & Hsys1 & Hm1 & _ & Ht1 & Hl1).
  rewrite (teardown_without_scene w1) by (by rewrite Hs1).
  cbn [fst snd]. split_and!; try done. by rewrite Hm1.
Qed.

Lemma destroy_without_scene_witness :
  (destroy three_systems).1
  = Throw (TypeError "Cannot read properties of null (reading 'destroy')") ∧
  systems (destroy three_systems).2 = systems three_systems.
Proof.
  destruct (destroy_without_scene three_systems (mkTicker false 120 false 1) []
              eq_refl eq_refl eq_refl) as (H1 & H2 & _).
  split; [exact H1|exact H2].
Defined.

(** X15. On a game with a primary scene, a ticker and a secondary-scene
    list, whose registered objects are all [System]s with no throwing
    [destroy] hook, [destroy] returns.  It logs, in this order: the ticker's
    pause and the [onPause] sweep if the game was playing, the destruction
    of the primary scene, and the [destroy] call of each system that has the
    hook, in registration order. *)
Theorem destroy_completes_in_order w t ms s :
  _scene w = Some s → ticker w = Some t → multiScenes w = Some ms →
  Forall (fun u => instanceof u System = true) (systems w) →
  Forall destroy_returns (systems w) →
  (destroy w).1 = Normal tt ∧
  log (destroy w).2
  = log w
    ++ (if playing w
        then TickerPause :: sweep_trace HonPause onPause system_onPause_msg ms w
        else [])
    ++ [SceneDestroy s]
    ++ flat_map destroy_call (systems w).
Proof.
  intros Hs Ht Hm Hinst Hret. rewrite destroy_unfold. unfold bind.
  destruct (pause_log (set_listeners [] w) t ms Ht Hm)
    as (w1 & -> & Hs1 & Hsys1 & Hm1 & _ & Ht1 & Hl1).
  cbn [_scene systems log playing set_listeners] in Hs1, Hsys1, Hl1.
  destruct (teardown_returns w1 s) as (w2 & -> & Hl2).
  { by rewrite Hs1. }
  { by rewrite Hsys1. }
  { by rewrite Hsys1. }
  cbn [fst snd]. split; [done|]. rewrite Hl2, Hl1, Hsys1.
  by rewrite <- !app_assoc.
Qed.

Lemma destroy_completes_in_order_witness :
  (destroy with_scene).1 = Normal tt ∧
  log (destroy with_scene).2
  = log with_scene ++ [] ++ [SceneDestroy sceneA] ++ [Call Hdestroy renderer].
Proof.
  apply (destroy_completes_in_order with_scene (mkTicker false 120 false 1) []
           sceneA eq_refl eq_refl eq_refl).
  - repeat (apply Forall_cons_2; [reflexivity|]). apply Forall_nil_2.
  - repeat (apply Forall_cons_2; [intros e; discriminate|]). apply Forall_nil_2.
Defined.

(** * Construction *)

Lemma hasTheSystem_fresh system l :
  (∀ x, x ∈ l → constructor x ≠ constructor system) →
  hasTheSystem system l = None.
Proof.
  intros H. apply find_none_all, Forall_forall. intros x Hx.
  apply bool_decide_eq_false_2. by apply H.
Qed.

Lemma add_each_same_outside l : preserves (same outside_registry) (add_each l).
Proof. unfold add_each. same_field. Qed.

Lemma add_each_cons s l w :
  add_each (s :: l) w
  = match addSystem (AddInstance s) None w with
    | (Normal _, w') => add_each l w'
    | (Throw e, w') => (Throw e, w')
    end.
Proof.
  unfold add_each. cbn [for_of]. unfold bind.
  by destruct (addSystem (AddInstance s) None w) as [[a|e] w'].
Qed.

Lemma add_each_in_order l w :
  Forall (fun s => instanceof s System = true) l →
  NoDup (map constructor l) →
  Forall init_returns l →
  (∀ x s, x ∈ systems w → s ∈ l → constructor x ≠ constructor s) →
  (add_each l w).1 = Normal tt ∧ systems (add_each l w).2 = systems w ++ l.
Proof.
  revert w. induction l as [|s l IH]; intros w Hinst Hnd Hinit Hfresh.
  - cbn. by rewrite app_nil_r.
  - apply Forall_cons in Hinst as [Hs Hinst].
    apply Forall_cons in Hinit as [His Hinit].
    cbn [map] in Hnd. apply NoDup_cons in Hnd as [Hsl Hnd].
    rewrite add_each_cons.
    rewrite (addSystem_accepted (AddInstance s) None w s).
    + destruct (IH (registered s w) Hinst Hnd Hinit) as [H1 H2].
      { intros x y Hx Hy. unfold registered in Hx. cbn [systems set_systems] in Hx.
        change (x ∈ systems w ++ [s]) in Hx.
        apply elem_of_app in Hx as [Hx|Hx].
        - apply Hfresh; [done|by right].
        - apply list_elem_of_singleton in Hx as ->. intros Heq. apply Hsl.
          rewrite Heq. by apply list_elem_of_fmap_2. }
      split; [exact H1|]. rewrite H2. unfold registered. cbn [systems set_systems].
      change ((systems w ++ [s]) ++ l = systems w ++ s :: l).
      by rewrite <- app_assoc.
    + unfold resolve_system. by rewrite Hs.
    + apply hasTheSystem_fresh. intros x Hx. apply Hfresh; [done|left].
    + exact His.
Qed.

Lemma loadScene_with_list p w ms :
  multiScenes w = Some ms →
  ∃ w', loadScene p w = (Normal tt, w') ∧
        systems w' = systems w ∧ ticker w' = ticker w ∧
        playing w' = playing w ∧ started w' = started w.
Proof.
  intros Hm. destruct p as [[sc|] mode params].
  - destruct mode as [[|]|].
    + eexists. split; [reflexivity|done].
    + eexists. split.
      * cbv beta iota zeta delta
          [loadScene from_option id ls_scene ls_mode ls_params bind get].
        rewrite Hm. reflexivity.
      * done.
    + eexists. split; [reflexivity|done].
  - exists w. split; [reflexivity|done].
Qed.

(** X16. The constructor, given systems that are [System]s of pairwise
    different types whose [init] does not throw, returns and registers them
    in the order given.  The ticker is created stopped with the frame rate
    asked for (120 by default) and receives exactly one callback; with
    [autoStart] (the default) the game ends playing and started with the
    ticker running, without it neither. *)
Theorem new_Game_registers_in_order p scene0 l :
  default [] (gp_systems p) = l →
  Forall (fun s => instanceof s System = true) l →
  NoDup (map constructor l) →
  Forall init_returns l →
  let r := new_Game p scene0 in
  r.1 = Normal tt ∧
  systems r.2 = l ∧
  playing r.2 = default true (gp_autoStart p) ∧
  started r.2 = default true (gp_autoStart p) ∧
  ticker r.2
  = Some (mkTicker false (default 120 (gp_frameRate p))
                   (default true (gp_autoStart p)) 1).
Proof.
  intros Hl Hinst Hnd Hinit r. subst r.
  set (n := default 120 (gp_frameRate p)).
  set (a := default true (gp_autoStart p)).
  assert (Hgo : ∃ wf,
    new_Game p scene0 = (Normal tt, wf) ∧ systems wf = l ∧
    playing wf = a ∧ started wf = a ∧
    ticker wf = Some (mkTicker false n a 1)).
  { unfold new_Game, Game_constructor. fold n. fold a.
    set (w0 := set_ticker (Some (mkTicker false n false 1)) (fresh n)).
    unfold bind at 1. change (initTicker (fresh n)) with (Normal tt, w0).
    cbv beta iota. unfold bind at 1.
    assert (Hadd : ∃ w1,
      match gp_systems p with
      | Some ((_ :: _) as systems) =>
          for_of systems
            (fun system => addSystem (AddInstance system) None ;; ret tt)
      | _ => ret tt
      end w0 = (Normal tt, w1) ∧ systems w1 = l ∧
      outside_registry w1 = outside_registry w0).
    { destruct (add_each_in_order l w0 Hinst Hnd Hinit) as [H1 H2].
      { intros x s Hx. by apply elem_of_nil in Hx. }
      pose proof (add_each_same_outside l w0) as H3.
      destruct (gp_systems p) as [[|x l']|]; cbn in Hl; subst l.
      - exists w0. done.
      - fold (add_each (x :: l')).
        destruct (add_each (x :: l') w0) as [[[]|e] w1]; [|done].
        exists w1. done.
      - exists w0. done. }
    destruct Hadd as (w1 & -> & Hsys1 & Hout1).
    unfold outside_registry in Hout1.
    injection Hout1 as Hs1 Hc1 Hp1 Hst1 Hm1 Ht1 Hl1.
    assert (Hscene : ∃ w2,
      (if default true (gp_needScene p) then loadScene scene0 else ret tt) w1
      = (Normal tt, w2) ∧ systems w2 = systems w1 ∧ ticker w2 = ticker w1 ∧
      playing w2 = playing w1 ∧ started w2 = started w1).
    { destruct (default true (gp_needScene p)).
      - by apply (loadScene_with_list scene0 w1 []).
      - exists w1. done. }
    destruct Hscene as (w2 & Hload & Hsys2 & Ht2 & Hp2 & Hst2).
    unfold bind at 1. rewrite Hload.
    destruct a.
    - rewrite (start_spec w2 (mkTicker false n false 1)) by (by rewrite Ht2, Ht1).
      rewrite Hp2, Hp1. eexists. split; [reflexivity|].
      cbn [systems playing started ticker set_started set_playing add_log
           set_log set_ticker].
      split_and!; try done. by rewrite Hsys2.
    - exists w2. split; [reflexivity|]. split_and!; congruence. }
  destruct Hgo as (wf & -> & H). exact (conj eq_refl H).
Qed.

Lemma new_Game_registers_in_order_witness :
  (new_Game (mkGameParams None (Some 60) (Some [renderer; audio]) None)
            (mkLoadSceneParams (Some sceneA) None None)).1 = Normal tt ∧
  systems (new_Game (mkGameParams None (Some 60) (Some [renderer; audio]) None)
                    (mkLoadSceneParams (Some sceneA) None None)).2
  = [renderer; audio] ∧
  ticker (new_Game (mkGameParams None (Some 60) (Some [renderer; audio]) None)
                   (mkLoadSceneParams (Some sceneA) None None)).2
  = Some (mkTicker false 60 true 1).
Proof.
  destruct (new_Game_registers_in_order
              (mkGameParams None (Some 60) (Some [renderer; audio]) None)
              (mkLoadSceneParams (Some sceneA) None None) [renderer; audio])
    as (H1 & H2 & _ & _ & H5).
  - reflexivity.
  - repeat (apply Forall_cons_2; [reflexivity|]). apply Forall_nil_2.
  - apply (bool_decide_unpack _). vm_compute. exact I.
  - repeat (apply Forall_cons_2; [intros e; discriminate|]). apply Forall_nil_2.
  - split_and!; [exact H1|exact H2|exact H5].
Defined.

(** * The back-reference to the game *)

Lemma keeps_game_refs_refl w : keeps_game_refs w w.
Proof. by intros H. Qed.

Lemma keeps_game_refs_trans a b c :
  keeps_game_refs a b → keeps_game_refs b c → keeps_game_refs a c.
Proof. intros Hab Hbc H. by apply Hbc, Hab. Qed.

Lemma game_refs_grow_refl w : game_refs_grow w w.
Proof. unfold game_refs_grow. set_solver. Qed.

Lemma game_refs_grow_trans a b c :
  game_refs_grow a b → game_refs_grow b c → game_refs_grow a c.
Proof. unfold game_refs_grow. set_solver. Qed.

Lemma keeps_game_refs_addSystem S obj : preserves keeps_game_refs (addSystem S obj).
Proof.
  intros w Hw. rewrite addSystem_spec.
  destruct (resolve_system S obj) as [system|]; [|done].
  destruct (hasTheSystem system (systems w)); [done|].
  assert (Hreg : registered_have_game (registered system w)).
  { intros s Hs. unfold registered in *. cbn [systems obj_game set_systems set_obj_game] in *.
    change (s ∈ systems w ++ [system]) in Hs.
    change (oid s ∈ {[oid system]} ∪ obj_game w).
    apply elem_of_app in Hs as [Hs|Hs].
    - apply elem_of_union. right. by apply Hw.
    - apply list_elem_of_singleton in Hs as ->. apply elem_of_union. left.
      by apply elem_of_singleton. }
  assert (Hfail : registered_have_game (init_failed system w)).
  { intros s Hs. unfold init_failed in *. cbn [systems obj_game set_obj_game] in *.
    change (s ∈ systems w) in Hs.
    change (oid s ∈ {[oid system]} ∪ obj_game w).
    apply elem_of_union. right. by apply Hw. }
  by destruct (init system).
Qed.

Lemma keeps_game_refs_removeSystem system :
  preserves keeps_game_refs (removeSystem system).
Proof.
  intros w Hw.
  destruct (resolve_index_spec system (systems w)) as [Hi|(k & s & Hi & Hk)].
  - by rewrite (removeSystem_not_found system w Hi).
  - rewrite (removeSystem_found system w k s Hi Hk).
    assert (Hd : ∀ x, x ∈ delete k (systems w) → oid x ∈ obj_game w).
    { intros x Hx. apply Hw. by eapply list_elem_of_delete_inv. }
    by destruct (destroy_ s).
Qed.

Ltac refs_leaf :=
  idtac;
  lazymatch goal with
  | |- preserves _ (addSystem _ _) => apply keeps_game_refs_addSystem
  | |- preserves _ (removeSystem _) => apply keeps_game_refs_removeSystem
  | |- preserves _ (modify (set_systems [])) =>
      apply preserves_modify; intros ? _ ? H; by apply elem_of_nil in H
  | |- preserves _ (modify _) => apply preserves_modify; intros ? H; exact H
  | |- preserves _ (emit_log _) => unfold emit_log
  | |- preserves _ (call _ _ _) => unfold call
  | |- preserves _ (triggerStart _) => unfold triggerStart
  | |- _ => progress unfold_plumbing
  end.

Lemma keeps_game_refs_run_op op w : keeps_game_refs w (run_op op w).
Proof.
  destruct op; cbn [run_op];
    match goal with
    | |- keeps_game_refs _ (?m _).2 => revert w; change (preserves keeps_game_refs m)
    end;
    repeat preserves_step keeps_game_refs_refl keeps_game_refs_trans refs_leaf.
Qed.

Lemma keeps_game_refs_constructor p scene0 :
  preserves keeps_game_refs (Game_constructor p scene0).
Proof.
  repeat preserves_step keeps_game_refs_refl keeps_game_refs_trans refs_leaf.
Qed.

Ltac grow_leaf :=
  idtac;
  lazymatch goal with
  | |- preserves _ (modify _) =>
      apply preserves_modify; intros ?; unfold game_refs_grow;
      cbn [obj_game set_obj_game set_systems set_log set_obj_started set_ticker
           set_playing set_started set_scene set_canvas set_multiScenes
           set_listeners];
      set_solver
  | |- preserves _ (emit_log _) => unfold emit_log
  | |- preserves _ (call _ _ _) => unfold call
  | |- preserves _ (triggerStart _) => unfold triggerStart
  | |- _ => progress (unfold_plumbing; unfold addSystem, removeSystem)
  end.

Lemma game_refs_grow_run_op op w : game_refs_grow w (run_op op w).
Proof.
  destruct op; cbn [run_op];
    match goal with
    | |- game_refs_grow _ (?m _).2 => revert w; change (preserves game_refs_grow m)
    end;
    repeat preserves_step game_refs_grow_refl game_refs_grow_trans grow_leaf.
Qed.

(** X17. From construction on, whatever is called, every registered system
    has its [game] back-reference set.  The back-reference of an object is
    never cleared, not by [removeSystem] and not by [destroy]; and a
    registration whose [init] throws leaves the system unregistered but
    with its back-reference set. *)
Theorem game_back_reference :
  (∀ p scene0 ops s,
     s ∈ systems (run_ops ops (new_Game p scene0).2) →
     oid s ∈ obj_game (run_ops ops (new_Game p scene0).2)) ∧
  (∀ ops w o, o ∈ obj_game w → o ∈ obj_game (run_ops ops w)) ∧
  (∀ S obj w system e,
     resolve_system S obj = Some system →
     hasTheSystem system (systems w) = None →
     init system = Throws e →
     oid system ∈ obj_game (addSystem S obj w).2 ∧
     systems (addSystem S obj w).2 = systems w).
Proof.
  split_and!.
  - intros p scene0 ops.
    assert (Hops : ∀ w, registered_have_game w → registered_have_game (run_ops ops w)).
    { induction ops as [|op ops IH]; intros w Hw; [done|].
      cbn. by apply IH, keeps_game_refs_run_op. }
    apply Hops. unfold new_Game. apply keeps_game_refs_constructor.
    intros s Hs. by apply elem_of_nil in Hs.
  - intros ops. induction ops as [|op ops IH]; intros w o Ho; [done|].
    cbn. apply IH. by apply (game_refs_grow_run_op op w).
  - intros S obj w system e Hr Hh Hi. rewrite addSystem_spec, Hr, Hh, Hi.
    unfold init_failed. cbn [snd obj_game systems set_obj_game].
    split; [|done]. apply elem_of_union. left. by apply elem_of_singleton.
Qed.

Lemma game_back_reference_witness :
  oid audio ∈ obj_game (run_ops [OpRemoveSystem (RmInstance audio); OpDestroy]
                          three_systems) ∧
  (oid faulty_init ∈ obj_game (addSystem (AddInstance faulty_init) None bare).2 ∧
   systems (addSystem (AddInstance faulty_init) None bare).2 = systems bare).
Proof.
  destruct game_back_reference as (_ & Hgrow & Hfail). split.
  - apply Hgrow. apply (bool_decide_unpack _). vm_compute. exact I.
  - exact (Hfail (AddInstance faulty_init) None bare faulty_init (Thrown 8)
             eq_refl eq_refl eq_refl).
Defined.

(** * How often a frame calls a hook *)












(** * The ticker's callback *)









